(** * The ledger validator of bitcoin-analysis (data_validator.py)

    A shallow embedding of [DataValidator]: the three dataframes are lists
    of rows in row order, the UTXO set is a finite set of output ids, the
    rejection lists are lists of transaction ids in append order.

    Conventions of the embedding.
    - A boolean-mask selection [df[df[c] == v]] keeps the selected rows in
      row order: it is [filter].
    - [df.drop(df[mask].index, inplace=True)] with the unique row labels
      that [read_csv] assigns removes exactly the selected rows: it is
      [filter] with the negated mask.
    - [s.iloc[0]] raises [IndexError] on an empty selection and
      [set.remove] raises [KeyError] on a missing element; both are kept
      as results of the embedded functions.
    - Cell values are integers.  [read_csv] gives an integer column the
      dtype int64, so the cells of a column are 64-bit signed integers
      and sums that NumPy or pandas accumulate ([tot_input] of line 120,
      [groupby(...).sum()] of line 164, [utxo_tot] of the analyzer) wrap
      around modulo 2^64: they are written with [wrap64].  Sums of Python
      integers ([tot_output] of lines 130-136, which iterates a Series)
      are exact.  Ids are only compared, never added. *)

From stdpp Require Import gmap list sorting.
From Stdlib Require Import ZArith Lia.

Local Open Scope Z_scope.

#[local] Set Warnings "-clear-no-such-hyp".

(** Decides a closed decidable proposition by computation. *)
Ltac by_compute :=
  match goal with
  | |- ?P => apply (bool_decide_unpack P); vm_compute; exact I
  end.

(** ** Rows of the three relations *)

Module TxRow.
Record t := mk { id : Z; block_id : Z }.
End TxRow.

Module InRow.
(** Column order of inputs.csv: [row[1]] is tx_id, [row[2]] is sig_id,
    [row[3]] is out_id. *)
Record t := mk { id : Z; tx_id : Z; sig_id : Z; out_id : Z }.
End InRow.

Module OutRow.
Record t := mk { id : Z; tx_id : Z; pk_id : Z; value : Z }.
End OutRow.

#[global] Instance tx_row_eq_dec : EqDecision TxRow.t.
Proof. solve_decision. Defined.
#[global] Instance in_row_eq_dec : EqDecision InRow.t.
Proof. solve_decision. Defined.
#[global] Instance out_row_eq_dec : EqDecision OutRow.t.
Proof. solve_decision. Defined.

(** ** Exceptions *)

Inductive exn := IndexError | KeyError.

Inductive result (A : Type) :=
  | Ok (a : A)
  | Raise (e : exn).
Arguments Ok {A} a.
Arguments Raise {A} e.

#[global] Instance result_ret : MRet result := λ A a, Ok a.
#[global] Instance result_bind : MBind result := λ A B f m,
  match m with
  | Ok a => f a
  | Raise e => Raise e
  end.

(** [s.iloc[0]] *)
Definition iloc0 {A} (s : list A) : result A :=
  match s with
  | [] => Raise IndexError
  | x :: _ => Ok x
  end.

(** ** 64-bit integers *)

(** The value a NumPy int64 holds after an overflowing operation whose
    exact result is [z]. *)
Definition wrap64 (z : Z) : Z := (z + 2 ^ 63) mod 2 ^ 64 - 2 ^ 63.

(** [z] fits a signed 64-bit integer. *)
Definition in_int64 (z : Z) : Prop := - 2 ^ 63 ≤ z < 2 ^ 63.

#[global] Instance in_int64_dec z : Decision (in_int64 z).
Proof. unfold in_int64. apply _. Defined.

Lemma wrap64_id z : in_int64 z → wrap64 z = z.
Proof.
  unfold in_int64, wrap64. intros Hz. rewrite Z.mod_small; lia.
Qed.

Lemma wrap64_in_int64 z : in_int64 (wrap64 z).
Proof.
  unfold in_int64, wrap64.
  pose proof (Z.mod_pos_bound (z + 2 ^ 63) (2 ^ 64) ltac:(lia)). lia.
Qed.

Lemma wrap64_add_l z v : wrap64 (wrap64 z + v) = wrap64 (z + v).
Proof.
  unfold wrap64.
  replace ((z + 2 ^ 63) mod 2 ^ 64 - 2 ^ 63 + v + 2 ^ 63)
    with ((z + 2 ^ 63) mod 2 ^ 64 + v) by lia.
  rewrite Zplus_mod_idemp_l. do 2 f_equal. lia.
Qed.

Lemma wrap64_idemp z : wrap64 (wrap64 z) = wrap64 z.
Proof.
  apply wrap64_id, wrap64_in_int64.
Qed.

Lemma wrap64_fixed z : wrap64 z = z ↔ in_int64 z.
Proof.
  split; [|apply wrap64_id]. intros <-. apply wrap64_in_int64.
Qed.

(** ** Constants *)

Definition MINING_REWARD : Z := 5000000000.

(** ** The validator object *)

Inductive reason :=
  | NotInUtxo | NegDestPk | InvalidPk | NegOutput | NotEnoughValue
  | InvalidCoinbase.

#[global] Instance reason_eq_dec : EqDecision reason.
Proof. solve_decision. Defined.

Record DataValidator := mkDV {
  tx_df : list TxRow.t;
  in_df : list InRow.t;
  out_df : list OutRow.t;
  n_invalid : Z;
  utxo : gset Z;
  not_in_utxo : list Z;
  neg_dest_pk : list Z;
  invalid_pk : list Z;
  neg_output : list Z;
  not_enough_value : list Z;
  invalid_coinbase : list Z
}.

(** The attributes declared in the class body with a mutable default
    ([utxo: set = set()], [not_in_utxo: list = []], ...) are objects of
    the class: every instance reads and mutates the same set and the same
    six lists.  [n_invalid: int = 0] is an immutable default: the first
    [self.n_invalid += 1] creates an attribute of the instance. *)
Record ClassAttrs := mkClass {
  c_utxo : gset Z;
  c_not_in_utxo : list Z;
  c_neg_dest_pk : list Z;
  c_invalid_pk : list Z;
  c_neg_output : list Z;
  c_not_enough_value : list Z;
  c_invalid_coinbase : list Z
}.

(** The class as the module is imported. *)
Definition class_body : ClassAttrs := mkClass ∅ [] [] [] [] [] [].

(** [DataValidator(tx_df, in_df, out_df)] in a process whose class
    attributes hold [cls]. *)
Definition init (cls : ClassAttrs) (txs : list TxRow.t) (ins : list InRow.t)
    (outs : list OutRow.t) : DataValidator :=
  mkDV txs ins outs 0 (c_utxo cls) (c_not_in_utxo cls) (c_neg_dest_pk cls)
       (c_invalid_pk cls) (c_neg_output cls) (c_not_enough_value cls)
       (c_invalid_coinbase cls).

(** The class attributes as an instance leaves them. *)
Definition class_of (dv : DataValidator) : ClassAttrs :=
  mkClass (utxo dv) (not_in_utxo dv) (neg_dest_pk dv) (invalid_pk dv)
          (neg_output dv) (not_enough_value dv) (invalid_coinbase dv).

Definition set_utxo (s : gset Z) (dv : DataValidator) : DataValidator :=
  mkDV (tx_df dv) (in_df dv) (out_df dv) (n_invalid dv) s (not_in_utxo dv)
       (neg_dest_pk dv) (invalid_pk dv) (neg_output dv) (not_enough_value dv)
       (invalid_coinbase dv).

(** The three statements before each [return False] of [is_valid], and
    before [drop_transaction] in the pre-pass:
    [self.n_invalid += 1; self.<list>.append(tx_id)]. *)
Definition record_reject (r : reason) (tx_id : Z) (dv : DataValidator)
    : DataValidator :=
  let app (r' : reason) (l : list Z) :=
    if decide (r = r') then l ++ [tx_id] else l in
  mkDV (tx_df dv) (in_df dv) (out_df dv) (n_invalid dv + 1) (utxo dv)
       (app NotInUtxo (not_in_utxo dv))
       (app NegDestPk (neg_dest_pk dv))
       (app InvalidPk (invalid_pk dv))
       (app NegOutput (neg_output dv))
       (app NotEnoughValue (not_enough_value dv))
       (app InvalidCoinbase (invalid_coinbase dv)).

(** The list a reason is reported in. *)
Definition bucket (r : reason) (dv : DataValidator) : list Z :=
  match r with
  | NotInUtxo => not_in_utxo dv
  | NegDestPk => neg_dest_pk dv
  | InvalidPk => invalid_pk dv
  | NegOutput => neg_output dv
  | NotEnoughValue => not_enough_value dv
  | InvalidCoinbase => invalid_coinbase dv
  end.

(** ** is_valid *)

(** Lines 95-114: the loop over [inputs.values].  [Some r] when the body
    reaches the [return False] that records [r], [None] when the loop
    runs to its end. *)
Fixpoint scan_inputs (dv : DataValidator) (rows : list InRow.t)
    : result (option reason) :=
  match rows with
  | [] => Ok None
  | row :: rest =>
      if decide (InRow.out_id row ∉ utxo dv) then Ok (Some NotInUtxo)
      else
        pk ← iloc0 (OutRow.pk_id <$>
                     filter (λ o, OutRow.id o = InRow.out_id row) (out_df dv));
        if decide (InRow.sig_id row ≠ pk) then Ok (Some InvalidPk)
        else
          let dest_outputs :=
            OutRow.pk_id <$>
              filter (λ o, OutRow.tx_id o = InRow.tx_id row) (out_df dv) in
          if existsb (λ pk, (pk <=? 0) && negb (pk =? -1)) dest_outputs
          then Ok (Some NegDestPk)
          else scan_inputs dv rest
  end.

(** Lines 117-121: [tot_input] and [spending_outputs_list].  [.iloc[0]]
    of an int64 column is a NumPy int64, so from the first addition on
    [tot_input] is an int64 and [+=] wraps around. *)
Fixpoint total_input (dv : DataValidator) (out_ids : list Z)
    (tot_input : Z) (spending_outputs_list : list Z) : result (Z * list Z) :=
  match out_ids with
  | [] => Ok (tot_input, spending_outputs_list)
  | out_id :: rest =>
      v ← iloc0 (OutRow.value <$>
                  filter (λ o, OutRow.id o = out_id) (out_df dv));
      total_input dv rest (wrap64 (tot_input + v))
        (spending_outputs_list ++ [out_id])
  end.

(** Lines 129-136: [None] when a negative value is met.  Iterating a
    Series yields Python integers: [tot_output] is exact. *)
Fixpoint total_output (values : list Z) (tot_output : Z) : option Z :=
  match values with
  | [] => Some tot_output
  | value :: rest =>
      if value <? 0 then None else total_output rest (tot_output + value)
  end.

(** Line 139 compares the int64 [tot_input] with the Python integer
    [tot_output]: the comparison of the two integers when [tot_output]
    fits 64 bits, which the statements on rule 6 below assume
    ([totals_fit]). *)
Definition is_valid (dv : DataValidator) (tx_id : Z) (inputs : list InRow.t)
    (outputs : list OutRow.t) : result (bool * DataValidator) :=
  r ← scan_inputs dv inputs;
  match r with
  | Some r => Ok (false, record_reject r tx_id dv)
  | None =>
      '(tot_input, spending_outputs_list) ←
        total_input dv (InRow.out_id <$> inputs) 0 [];
      if decide (length spending_outputs_list
                 ≠ size (list_to_set spending_outputs_list : gset Z))
      then Ok (false, record_reject NotInUtxo tx_id dv)
      else
        match total_output (OutRow.value <$> outputs) 0 with
        | None => Ok (false, record_reject NegOutput tx_id dv)
        | Some tot_output =>
            if tot_input <? tot_output
            then Ok (false, record_reject NotEnoughValue tx_id dv)
            else Ok (true, dv)
        end
  end.

(** ** drop_transaction *)

Definition drop_transaction (tx_id : Z) (dv : DataValidator) : DataValidator :=
  mkDV (filter (λ t, TxRow.id t ≠ tx_id) (tx_df dv))
       (filter (λ i, InRow.tx_id i ≠ tx_id) (in_df dv))
       (filter (λ o, OutRow.tx_id o ≠ tx_id) (out_df dv))
       (n_invalid dv) (utxo dv) (not_in_utxo dv) (neg_dest_pk dv)
       (invalid_pk dv) (neg_output dv) (not_enough_value dv)
       (invalid_coinbase dv).

(** ** validate_data *)

Definition sum_list (l : list Z) : Z := foldr Z.add 0 l.

(** [df.groupby('tx_id')['value'].sum()]: one entry per distinct tx_id, in
    ascending order of tx_id, holding the sum of the group's values as an
    int64. *)
Definition groupby_tx_value_sum (rows : list OutRow.t) : list (Z * Z) :=
  (λ k, (k, wrap64 (sum_list (OutRow.value <$>
                                filter (λ o, OutRow.tx_id o = k) rows))))
    <$> merge_sort Z.le (remove_dups (OutRow.tx_id <$> rows)).

(** Lines 163-164. *)
Definition coinbase_tx (dv : DataValidator) : list Z :=
  InRow.tx_id <$> filter (λ i, InRow.sig_id i = 0) (in_df dv).

Definition coinbase_outputs (dv : DataValidator) : list (Z * Z) :=
  groupby_tx_value_sum
    (filter (λ o, OutRow.tx_id o ∈ coinbase_tx dv) (out_df dv)).

(** Lines 166-171: the body of the loop over [coinbase_outputs]. *)
Definition prepass_step (dv : DataValidator) (v : Z * Z) : DataValidator :=
  let '(tx_id, value) := v in
  if value <? MINING_REWARD
  then drop_transaction tx_id (record_reject InvalidCoinbase tx_id dv)
  else dv.

Definition prepass (dv : DataValidator) : DataValidator :=
  foldl prepass_step dv (coinbase_outputs dv).

(** [self.utxo.remove(out_id)] *)
Definition utxo_remove (out_id : Z) (s : gset Z) : result (gset Z) :=
  if decide (out_id ∈ s) then Ok (s ∖ {[out_id]}) else Raise KeyError.

(** Lines 184-185. *)
Fixpoint remove_spent (out_ids : list Z) (s : gset Z) : result (gset Z) :=
  match out_ids with
  | [] => Ok s
  | out_id :: rest => s' ← utxo_remove out_id s; remove_spent rest s'
  end.

(** Lines 180-181 and 186-187: [self.utxo.add] for each id in turn. *)
Definition add_unspent (ids : list Z) (s : gset Z) : gset Z :=
  foldl (λ s id, {[id]} ∪ s) s ids.

(** Lines 175-189: the body of the main loop for one [tx_id]. *)
Definition validate_tx (tx_id : Z) (dv : DataValidator) : result DataValidator :=
  let inputs := filter (λ i, InRow.tx_id i = tx_id) (in_df dv) in
  let outputs := filter (λ o, OutRow.tx_id o = tx_id) (out_df dv) in
  first ← iloc0 inputs;
  if decide (InRow.sig_id first = 0 ∧ InRow.out_id first = -1)
  then Ok (set_utxo (add_unspent (OutRow.id <$> outputs) (utxo dv)) dv)
  else
    '(valid, dv') ← is_valid dv tx_id inputs outputs;
    if valid : bool
    then
      s ← remove_spent (InRow.out_id <$> inputs) (utxo dv');
      Ok (set_utxo (add_unspent (OutRow.id <$> outputs) s) dv')
    else Ok (drop_transaction tx_id dv').

(** Line 174: the loop runs over the ids that [tx_df] holds when the loop
    starts; rows dropped by the body do not change the sequence. *)
Fixpoint replay (tx_ids : list Z) (dv : DataValidator) : result DataValidator :=
  match tx_ids with
  | [] => Ok dv
  | tx_id :: rest => dv' ← validate_tx tx_id dv; replay rest dv'
  end.

(** ** write_out *)

Record Category := mkCat { tot : nat; tx_ids : list Z }.

Record Report := mkReport {
  tot_invalid : Z;
  r_not_in_utxo : Category;
  r_neg_dest_pk : Category;
  r_invalid_pk : Category;
  r_neg_output : Category;
  r_not_enough_value : Category;
  r_invalid_coinbase : Category
}.

Record Written := mkWritten {
  validated_transactions : list TxRow.t;
  validated_inputs : list InRow.t;
  validated_outputs : list OutRow.t;
  validation_analytics : Report;
  utxo_ids : gset Z
}.

Definition write_out (dv : DataValidator) : Written :=
  let cat l := mkCat (length l) l in
  mkWritten (tx_df dv) (in_df dv) (out_df dv)
    (mkReport (n_invalid dv) (cat (not_in_utxo dv)) (cat (neg_dest_pk dv))
       (cat (invalid_pk dv)) (cat (neg_output dv)) (cat (not_enough_value dv))
       (cat (invalid_coinbase dv)))
    (utxo dv).

Definition validate_data (dv : DataValidator) : result (DataValidator * Written) :=
  let dv1 := prepass dv in
  dv2 ← replay (TxRow.id <$> tx_df dv1) dv1;
  Ok (dv2, write_out dv2).

(** ** Small ledgers used below *)

Definition tx (i : Z) : TxRow.t := TxRow.mk i 0.

(** tx 1: coinbase paying 5_000_000_000 to key 7 (output 10);
    tx 2: key 7 spends output 10 into outputs 11 (key 8) and 12 (key 9). *)
Definition ledger_ok : DataValidator :=
  init class_body [tx 1; tx 2]
    [InRow.mk 1 1 0 (-1); InRow.mk 2 2 7 10]
    [OutRow.mk 10 1 7 5000000000; OutRow.mk 11 2 8 3000000000;
     OutRow.mk 12 2 9 1000000000].

Example ledger_ok_runs :
  (λ r, (elements (utxo r.1), n_invalid r.1, tx_df r.1)) <$>
    (match validate_data ledger_ok with Ok r => Some r | Raise _ => None end)
  = Some ([11; 12], 0, [tx 1; tx 2]).
Proof. vm_compute. reflexivity. Qed.

(** ** Elementary facts about the loops *)

Section loops.
Implicit Types (s : gset Z) (l ids : list Z) (dv : DataValidator).

Lemma add_unspent_union ids s : add_unspent ids s = list_to_set ids ∪ s.
Proof.
  unfold add_unspent. revert s.
  induction ids as [|x ids IH]; intros s; simpl.
  - set_solver.
  - rewrite IH. set_solver.
Qed.

Lemma remove_spent_Ok l s :
  NoDup l → (∀ x, x ∈ l → x ∈ s) →
  remove_spent l s = Ok (s ∖ list_to_set l).
Proof.
  revert s. induction l as [|x l IH]; intros s Hnd Hin; simpl.
  - f_equal. set_solver.
  - apply NoDup_cons in Hnd as [Hx Hnd].
    unfold utxo_remove. rewrite decide_True by set_solver. simpl.
    rewrite IH; [f_equal; set_solver | done |].
    intros y Hy. apply elem_of_difference. split; [set_solver|].
    intros ->%elem_of_singleton. done.
Qed.

Lemma remove_spent_inv l s s' :
  remove_spent l s = Ok s' →
  NoDup l ∧ (∀ x, x ∈ l → x ∈ s) ∧ s' = s ∖ list_to_set l.
Proof.
  revert s. induction l as [|x l IH]; intros s; simpl.
  - intros [= <-]. split; [constructor|]. split; set_solver.
  - unfold utxo_remove. destruct (decide (x ∈ s)) as [Hx|Hx]; [|done].
    simpl. intros (Hnd & Hin & ->)%IH. split; [|split].
    + constructor; [|done]. intros Hxl. apply Hin in Hxl. set_solver.
    + intros y [->|Hy]%elem_of_cons; [done|]. apply Hin in Hy. set_solver.
    + set_solver.
Qed.

Lemma remove_spent_no_IndexError l s : remove_spent l s ≠ Raise IndexError.
Proof.
  revert s. induction l as [|x l IH]; intros s; simpl; [done|].
  unfold utxo_remove. destruct (decide (x ∈ s)); simpl; [apply IH|done].
Qed.

(** The test of line 123. *)
Lemma size_list_to_set_le l : (size (list_to_set l : gset Z) ≤ length l)%nat.
Proof.
  induction l as [|x l IH]; [by rewrite list_to_set_nil, size_empty|].
  rewrite list_to_set_cons, length_cons.
  destruct (decide (x ∈ (list_to_set l : gset Z))) as [Hx|Hx].
  - replace ({[x]} ∪ list_to_set l : gset Z) with (list_to_set l : gset Z)
      by set_solver. lia.
  - rewrite size_union by set_solver. rewrite size_singleton. lia.
Qed.

Lemma len_eq_set_size_NoDup l :
  length l = size (list_to_set l : gset Z) ↔ NoDup l.
Proof.
  split; [|intros; by rewrite size_list_to_set].
  induction l as [|x l IH]; [constructor|].
  rewrite list_to_set_cons, length_cons.
  destruct (decide (x ∈ (list_to_set l : gset Z))) as [Hx|Hx].
  - replace ({[x]} ∪ list_to_set l : gset Z) with (list_to_set l : gset Z)
      by set_solver.
    pose proof (size_list_to_set_le l). lia.
  - rewrite size_union by set_solver. rewrite size_singleton.
    intros Hlen. constructor; [set_solver|]. apply IH. lia.
Qed.

Lemma total_input_app dv ids t l ti sl :
  total_input dv ids t l = Ok (ti, sl) → sl = l ++ ids.
Proof.
  revert t l. induction ids as [|x ids IH]; intros t l; simpl.
  - intros [= _ <-]. by rewrite app_nil_r.
  - destruct (iloc0 _) as [v|]; simpl; [|done].
    intros ->%IH. by rewrite <- app_assoc.
Qed.
End loops.

(** ** The rules of the classifier *)

(** Every id of the UTXO set is the id of a row of [out_df]. *)
Definition utxo_backed (dv : DataValidator) : Prop :=
  ∀ x, x ∈ utxo dv → ∃ o, o ∈ out_df dv ∧ OutRow.id o = x.

Section rules.
Context (dv : DataValidator).

(** The Output row an input references, resolved by lookup: the first
    row of [out_df] that carries the id. *)
Definition referenced (i : InRow.t) : option OutRow.t :=
  head (filter (λ o, OutRow.id o = InRow.out_id i) (out_df dv)).

(** Rule 1. *)
Definition membership (i : InRow.t) : Prop := InRow.out_id i ∈ utxo dv.

(** Rule 2. *)
Definition ownership (i : InRow.t) : Prop :=
  OutRow.pk_id <$> referenced i = Some (InRow.sig_id i).

(** Rule 3: the outputs produced by the transaction of the input. *)
Definition destination (i : InRow.t) : Prop :=
  Forall (λ o, OutRow.tx_id o = InRow.tx_id i →
               0 < OutRow.pk_id o ∨ OutRow.pk_id o = -1) (out_df dv).

(** Rule 4. *)
Definition no_double_spend (inputs : list InRow.t) : Prop :=
  NoDup (InRow.out_id <$> inputs).

(** Rule 5. *)
Definition non_negative (outputs : list OutRow.t) : Prop :=
  Forall (λ o, 0 ≤ OutRow.value o) outputs.

(** The total value the inputs reference and the total value the outputs
    carry, as mathematical integers. *)
Definition input_value (inputs : list InRow.t) : Z :=
  sum_list ((λ i, from_option OutRow.value 0 (referenced i)) <$> inputs).

Definition output_value (outputs : list OutRow.t) : Z :=
  sum_list (OutRow.value <$> outputs).

(** Rule 6 as the specification words it. *)
Definition conservation (inputs : list InRow.t) (outputs : list OutRow.t)
    : Prop :=
  output_value outputs ≤ input_value inputs.

(** Rule 6 as line 139 tests it: the produced total against the
    referenced total as 64 bits hold it. *)
Definition enough_value (inputs : list InRow.t) (outputs : list OutRow.t)
    : Prop :=
  output_value outputs ≤ wrap64 (input_value inputs).

(** Both totals fit a signed 64-bit integer. *)
Definition totals_fit (inputs : list InRow.t) (outputs : list OutRow.t)
    : Prop :=
  in_int64 (input_value inputs) ∧ in_int64 (output_value outputs).

#[global] Instance membership_dec i : Decision (membership i).
Proof. unfold membership. apply _. Defined.
#[global] Instance ownership_dec i : Decision (ownership i).
Proof. unfold ownership. apply _. Defined.
#[global] Instance destination_dec i : Decision (destination i).
Proof. unfold destination. apply _. Defined.
#[global] Instance no_double_spend_dec inputs : Decision (no_double_spend inputs).
Proof. unfold no_double_spend. apply _. Defined.
#[global] Instance non_negative_dec outputs : Decision (non_negative outputs).
Proof. unfold non_negative. apply _. Defined.
#[global] Instance conservation_dec inputs outputs :
  Decision (conservation inputs outputs).
Proof. unfold conservation. apply _. Defined.
#[global] Instance enough_value_dec inputs outputs :
  Decision (enough_value inputs outputs).
Proof. unfold enough_value. apply _. Defined.
#[global] Instance totals_fit_dec inputs outputs :
  Decision (totals_fit inputs outputs).
Proof. unfold totals_fit. apply _. Defined.

(** A check is the reason recorded when it fails and whether it holds. *)
Definition input_checks (i : InRow.t) : list (reason * bool) :=
  [ (NotInUtxo, bool_decide (membership i));
    (InvalidPk, bool_decide (ownership i));
    (NegDestPk, bool_decide (destination i)) ].

Definition tx_checks (inputs : list InRow.t) (outputs : list OutRow.t)
    : list (reason * bool) :=
  [ (NotInUtxo, bool_decide (no_double_spend inputs));
    (NegOutput, bool_decide (non_negative outputs));
    (NotEnoughValue, bool_decide (enough_value inputs outputs)) ].

(** The order of evaluation: rules 1-3 on the first input, rules 1-3 on
    the second input, ..., then rules 4, 5 and 6. *)
Definition checks (inputs : list InRow.t) (outputs : list OutRow.t)
    : list (reason * bool) :=
  (inputs ≫= input_checks) ++ tx_checks inputs outputs.

(** The same sequence with rule 6 as the specification words it. *)
Definition spec_tx_checks (inputs : list InRow.t) (outputs : list OutRow.t)
    : list (reason * bool) :=
  [ (NotInUtxo, bool_decide (no_double_spend inputs));
    (NegOutput, bool_decide (non_negative outputs));
    (NotEnoughValue, bool_decide (conservation inputs outputs)) ].

Definition spec_checks (inputs : list InRow.t) (outputs : list OutRow.t)
    : list (reason * bool) :=
  (inputs ≫= input_checks) ++ spec_tx_checks inputs outputs.
End rules.

(** The reason of the first check that fails, if any. *)
Fixpoint first_violation (cs : list (reason * bool)) : option reason :=
  match cs with
  | [] => None
  | (r, holds) :: cs => if holds then first_violation cs else Some r
  end.

(** What [is_valid] returns and leaves in the object for a verdict. *)
Definition outcome (v : option reason) (tx_id : Z) (dv : DataValidator)
    : bool * DataValidator :=
  match v with
  | None => (true, dv)
  | Some r => (false, record_reject r tx_id dv)
  end.

Section classifier.
Context (dv : DataValidator).

Lemma iloc0_fmap_head {A B} (f : A → B) (l : list A) :
  iloc0 (f <$> l) =
  match head l with Some x => Ok (f x) | None => Raise IndexError end.
Proof. by destruct l. Qed.

Lemma referenced_member (Hb : utxo_backed dv) i :
  membership dv i →
  ∃ o, referenced dv i = Some o ∧ o ∈ out_df dv
       ∧ OutRow.id o = InRow.out_id i.
Proof.
  intros (o & Ho & Hid)%Hb. unfold referenced.
  destruct (filter _ (out_df dv)) as [|o' l] eqn:Hf.
  - assert (o ∈ filter (λ o, OutRow.id o = InRow.out_id i) (out_df dv)) as Hin
      by (by apply list_elem_of_filter).
    rewrite Hf in Hin. by apply elem_of_nil in Hin.
  - exists o'. split; [done|].
    assert (o' ∈ filter (λ o, OutRow.id o = InRow.out_id i) (out_df dv)) as Hin
      by (rewrite Hf; left).
    by apply list_elem_of_filter in Hin as [??].
Qed.

Lemma existsb_bad_pk (P : OutRow.t → Prop) `{∀ o, Decision (P o)}
    (l : list OutRow.t) :
  existsb (λ pk, (pk <=? 0) && negb (pk =? -1)) (OutRow.pk_id <$> filter P l)
  = negb (bool_decide
            (Forall (λ o, P o → 0 < OutRow.pk_id o ∨ OutRow.pk_id o = -1) l)).
Proof.
  induction l as [|o l IH]; [done|].
  rewrite filter_cons. destruct (decide (P o)) as [HP|HP].
  - rewrite fmap_cons. cbn [existsb]. rewrite IH.
    destruct (bool_decide (Forall _ l)) eqn:Hl.
    + apply bool_decide_eq_true in Hl.
      destruct (decide (0 < OutRow.pk_id o ∨ OutRow.pk_id o = -1)) as [Hok|Hok].
      * rewrite bool_decide_eq_true_2 by (constructor; done).
        simpl. rewrite orb_false_r.
        apply andb_false_iff. destruct Hok as [?| ->]; [left|right].
        -- apply Z.leb_gt. lia.
        -- done.
      * rewrite bool_decide_eq_false_2
          by (intros [Hc _]%Forall_cons; apply Hok, Hc, HP).
        simpl. rewrite orb_false_r. apply andb_true_iff. split.
        -- apply Z.leb_le. lia.
        -- apply negb_true_iff, Z.eqb_neq. lia.
    + apply bool_decide_eq_false in Hl.
      rewrite bool_decide_eq_false_2 by (by intros [_ ?]%Forall_cons).
      simpl. by rewrite orb_true_r.
  - rewrite IH. f_equal. apply bool_decide_ext.
    rewrite Forall_cons. naive_solver.
Qed.

Lemma scan_inputs_first_violation (Hb : utxo_backed dv) rows :
  scan_inputs dv rows = Ok (first_violation (rows ≫= input_checks dv)).
Proof.
  induction rows as [|row rows IH]; [done|].
  cbn [scan_inputs]. rewrite bind_cons.
  unfold input_checks at 1. cbn [app first_violation].
  destruct (decide (InRow.out_id row ∉ utxo dv)) as [Hm|Hm].
  { by rewrite bool_decide_eq_false_2. }
  apply dec_stable in Hm.
  rewrite (bool_decide_eq_true_2 (membership dv row)) by done.
  destruct (referenced_member Hb row Hm) as (o & Hr & _ & _).
  rewrite iloc0_fmap_head. fold (referenced dv row). rewrite Hr. simpl.
  destruct (decide (InRow.sig_id row ≠ OutRow.pk_id o)) as [Hs|Hs].
  { rewrite (bool_decide_eq_false_2 (ownership dv row)); [done|].
    unfold ownership. rewrite Hr. intros [= ?]. done. }
  apply dec_stable in Hs.
  rewrite (bool_decide_eq_true_2 (ownership dv row))
    by (unfold ownership; rewrite Hr, Hs; done).
  rewrite existsb_bad_pk. fold (destination dv row).
  destruct (bool_decide (destination dv row)); simpl; [apply IH|done].
Qed.
End classifier.

Section classifier_spec.
Context (dv : DataValidator).

Lemma first_violation_app cs1 cs2 :
  first_violation (cs1 ++ cs2) =
  match first_violation cs1 with
  | Some r => Some r
  | None => first_violation cs2
  end.
Proof.
  induction cs1 as [|[r b] cs1 IH]; [done|]. simpl. by destruct b.
Qed.

Lemma first_violation_None_inputs (rows : list InRow.t) :
  first_violation (rows ≫= input_checks dv) = None →
  Forall (λ i, membership dv i ∧ ownership dv i ∧ destination dv i) rows.
Proof.
  induction rows as [|row rows IH]; [constructor|].
  rewrite bind_cons. unfold input_checks at 1. cbn [app first_violation].
  destruct (bool_decide (membership dv row)) eqn:H1; [|done].
  destruct (bool_decide (ownership dv row)) eqn:H2; [|done].
  destruct (bool_decide (destination dv row)) eqn:H3; [|done].
  intros ?%IH. constructor; [|done].
  by apply bool_decide_eq_true in H1, H2, H3.
Qed.

Lemma input_value_cons i (inputs : list InRow.t) :
  input_value dv (i :: inputs)
  = from_option OutRow.value 0 (referenced dv i) + input_value dv inputs.
Proof. done. Qed.

(** The accumulation of lines 117-121 ends with the exact total, wrapped
    once. *)
Lemma total_input_value (inputs : list InRow.t) t l :
  in_int64 t →
  Forall (λ i, is_Some (referenced dv i)) inputs →
  total_input dv (InRow.out_id <$> inputs) t l
  = Ok (wrap64 (t + input_value dv inputs), l ++ (InRow.out_id <$> inputs)).
Proof.
  revert t l. induction inputs as [|i inputs IH]; intros t l Ht Hall.
  - simpl. unfold input_value, sum_list. simpl.
    by rewrite Z.add_0_r, app_nil_r, wrap64_id.
  - apply Forall_cons in Hall as [[o Hr] Hall].
    rewrite fmap_cons. cbn [total_input].
    rewrite iloc0_fmap_head. fold (referenced dv i). rewrite Hr. simpl.
    rewrite IH by (done || apply wrap64_in_int64).
    rewrite input_value_cons, Hr. simpl.
    rewrite <- app_assoc. simpl. do 2 f_equal.
    rewrite wrap64_add_l. f_equal. symmetry. apply Z.add_assoc.
Qed.

Lemma enough_value_conservation inputs outputs :
  in_int64 (input_value dv inputs) →
  enough_value dv inputs outputs ↔ conservation dv inputs outputs.
Proof.
  intros Hfit. unfold enough_value, conservation. by rewrite wrap64_id.
Qed.

Lemma spec_checks_checks inputs outputs :
  in_int64 (input_value dv inputs) →
  spec_checks dv inputs outputs = checks dv inputs outputs.
Proof.
  intros Hfit. unfold spec_checks, checks, spec_tx_checks, tx_checks.
  do 5 f_equal. apply bool_decide_ext. symmetry.
  by apply enough_value_conservation.
Qed.

Lemma total_output_value (outputs : list OutRow.t) t :
  total_output (OutRow.value <$> outputs) t =
  if bool_decide (non_negative outputs)
  then Some (t + output_value outputs) else None.
Proof.
  revert t. induction outputs as [|o outputs IH]; intros t.
  - rewrite (bool_decide_eq_true_2 (non_negative [])) by constructor.
    unfold output_value, sum_list. simpl. f_equal. lia.
  - rewrite fmap_cons. cbn [total_output].
    destruct (OutRow.value o <? 0) eqn:Hv.
    + apply Z.ltb_lt in Hv. rewrite bool_decide_eq_false_2; [done|].
      intros [? _]%Forall_cons. lia.
    + apply Z.ltb_ge in Hv. rewrite IH.
      destruct (bool_decide (non_negative outputs)) eqn:Hn.
      * apply bool_decide_eq_true in Hn.
        rewrite bool_decide_eq_true_2 by (by constructor).
        unfold output_value, sum_list. simpl. f_equal.
        symmetry. apply Z.add_assoc.
      * apply bool_decide_eq_false in Hn.
        rewrite bool_decide_eq_false_2; [done|].
        by intros [_ ?]%Forall_cons.
Qed.

Lemma scan_inputs_Ok rows v :
  scan_inputs dv rows = Ok v →
  v = first_violation (rows ≫= input_checks dv)
  ∧ (v = None → Forall (λ i, is_Some (referenced dv i)) rows).
Proof.
  induction rows as [|row rows IH]; [by intros [= <-]|].
  cbn [scan_inputs]. rewrite bind_cons.
  unfold input_checks at 1. cbn [app first_violation].
  destruct (decide (InRow.out_id row ∉ utxo dv)) as [Hm|Hm].
  { rewrite bool_decide_eq_false_2 by done. by intros [= <-]. }
  apply dec_stable in Hm.
  rewrite (bool_decide_eq_true_2 (membership dv row)) by done.
  rewrite iloc0_fmap_head. fold (referenced dv row).
  destruct (referenced dv row) as [o|] eqn:Hr; [simpl|done].
  destruct (decide (InRow.sig_id row ≠ OutRow.pk_id o)) as [Hs|Hs].
  { rewrite (bool_decide_eq_false_2 (ownership dv row)); [by intros [= <-]|].
    unfold ownership. rewrite Hr. intros [= ?]. done. }
  apply dec_stable in Hs.
  rewrite (bool_decide_eq_true_2 (ownership dv row))
    by (unfold ownership; rewrite Hr, Hs; done).
  rewrite existsb_bad_pk. fold (destination dv row).
  destruct (bool_decide (destination dv row)); simpl; [|by intros [= <-]].
  intros [-> Hall]%IH. split; [done|]. intros Hn. constructor; [|auto].
  rewrite Hr. by eexists.
Qed.

Lemma scan_inputs_no_KeyError rows : scan_inputs dv rows ≠ Raise KeyError.
Proof.
  induction rows as [|row rows IH]; [done|]. cbn [scan_inputs].
  destruct (decide _); [done|].
  destruct (iloc0 _) as [pk|e] eqn:Hl; simpl.
  - destruct (decide _); [done|]. by destruct (existsb _ _).
  - rewrite iloc0_fmap_head in Hl. destruct (head _); [done|].
    by injection Hl as <-.
Qed.

(** The part of [is_valid] after the loop over the inputs. *)
Lemma is_valid_scanned tx_id inputs outputs :
  scan_inputs dv inputs = Ok (first_violation (inputs ≫= input_checks dv)) →
  (first_violation (inputs ≫= input_checks dv) = None →
   Forall (λ i, is_Some (referenced dv i)) inputs) →
  is_valid dv tx_id inputs outputs
  = Ok (outcome (first_violation (checks dv inputs outputs)) tx_id dv).
Proof.
  intros Hscan Href. unfold is_valid, checks. rewrite first_violation_app.
  rewrite Hscan. simpl.
  destruct (first_violation (inputs ≫= input_checks dv)) as [r|]; [done|].
  rewrite total_input_value by (auto || by_compute).
  simpl. unfold tx_checks. cbn [first_violation].
  destruct (decide (length (InRow.out_id <$> inputs) ≠ _)) as [Hd|Hd].
  { rewrite bool_decide_eq_false_2; [done|].
    intros Hnd. apply Hd. by apply len_eq_set_size_NoDup. }
  apply dec_stable, len_eq_set_size_NoDup in Hd.
  rewrite (bool_decide_eq_true_2 (no_double_spend inputs)) by done.
  rewrite total_output_value.
  destruct (bool_decide (non_negative outputs)); [|done].
  rewrite !Z.add_0_l.
  destruct (wrap64 (input_value dv inputs) <? output_value outputs) eqn:Hc.
  - apply Z.ltb_lt in Hc. rewrite bool_decide_eq_false_2; [done|].
    unfold enough_value. lia.
  - apply Z.ltb_ge in Hc. by rewrite bool_decide_eq_true_2.
Qed.

(** [is_valid] computes the first violated check of [checks] and records
    its reason. *)
Lemma is_valid_first_violation (Hb : utxo_backed dv) tx_id inputs outputs :
  is_valid dv tx_id inputs outputs
  = Ok (outcome (first_violation (checks dv inputs outputs)) tx_id dv).
Proof.
  apply is_valid_scanned; [by apply scan_inputs_first_violation|].
  intros Hall%first_violation_None_inputs.
  eapply Forall_impl; [exact Hall|]. intros i (Hm & _ & _).
  destruct (referenced_member dv Hb i Hm) as (o & -> & _). by eexists.
Qed.

Lemma is_valid_Ok tx_id inputs outputs r :
  is_valid dv tx_id inputs outputs = Ok r →
  r = outcome (first_violation (checks dv inputs outputs)) tx_id dv.
Proof.
  intros Hv.
  destruct (scan_inputs dv inputs) as [v|e] eqn:Hscan.
  - destruct (scan_inputs_Ok _ _ Hscan) as [-> Href].
    rewrite is_valid_scanned in Hv by done. by injection Hv as <-.
  - unfold is_valid in Hv. by rewrite Hscan in Hv.
Qed.

Lemma total_input_no_KeyError ids t l : total_input dv ids t l ≠ Raise KeyError.
Proof.
  revert t l. induction ids as [|x ids IH]; intros t l; [done|].
  cbn [total_input]. destruct (iloc0 _) as [v|e] eqn:Hl; simpl; [apply IH|].
  rewrite iloc0_fmap_head in Hl. destruct (head _); [done|].
  by injection Hl as <-.
Qed.

Lemma is_valid_no_KeyError tx_id inputs outputs :
  is_valid dv tx_id inputs outputs ≠ Raise KeyError.
Proof.
  unfold is_valid.
  destruct (scan_inputs dv inputs) as [[r|]|e] eqn:Hscan; simpl; [done| |].
  - destruct (total_input _ _ _ _) as [[ti sl]|e] eqn:Hti; simpl.
    + destruct (decide _); [done|].
      destruct (total_output _ _); [|done]. by destruct (_ <? _).
    + intros [= ->]. by apply total_input_no_KeyError in Hti.
  - intros [= ->]. by apply scan_inputs_no_KeyError in Hscan.
Qed.

(** An accepted transfer passed every check. *)
Lemma first_violation_None_checks inputs outputs :
  first_violation (checks dv inputs outputs) = None →
  Forall (λ i, membership dv i ∧ ownership dv i ∧ destination dv i) inputs
  ∧ no_double_spend inputs ∧ non_negative outputs
  ∧ enough_value dv inputs outputs.
Proof.
  unfold checks. rewrite first_violation_app.
  destruct (first_violation (inputs ≫= input_checks dv)) eqn:Hscan; [done|].
  apply first_violation_None_inputs in Hscan.
  unfold tx_checks. cbn [first_violation].
  destruct (bool_decide (no_double_spend inputs)) eqn:H4; [|done].
  destruct (bool_decide (non_negative outputs)) eqn:H5; [|done].
  destruct (bool_decide (enough_value dv inputs outputs)) eqn:H6; [|done].
  by apply bool_decide_eq_true in H4, H5, H6.
Qed.

Lemma is_valid_true_inv tx_id inputs outputs dv' :
  is_valid dv tx_id inputs outputs = Ok (true, dv') →
  dv' = dv ∧ first_violation (checks dv inputs outputs) = None.
Proof.
  intros Hv%is_valid_Ok.
  destruct (first_violation (checks dv inputs outputs)); [done|].
  by injection Hv as ->.
Qed.

Lemma is_valid_false_inv tx_id inputs outputs dv' :
  is_valid dv tx_id inputs outputs = Ok (false, dv') →
  ∃ r, first_violation (checks dv inputs outputs) = Some r
       ∧ dv' = record_reject r tx_id dv ∧ r ≠ InvalidCoinbase.
Proof.
  intros Hv%is_valid_Ok.
  destruct (first_violation (checks dv inputs outputs)) as [r|] eqn:Hf;
    [|done].
  injection Hv as ->. exists r. split; [done|]. split; [done|].
  intros ->. revert Hf. unfold checks. rewrite first_violation_app.
  destruct (first_violation (inputs ≫= input_checks dv)) as [r|] eqn:Hscan.
  - intros [= ->]. clear -Hscan.
    induction inputs as [|i inputs IH]; [done|].
    rewrite bind_cons in Hscan. unfold input_checks at 1 in Hscan.
    cbn [app first_violation] in Hscan.
    repeat (destruct (bool_decide _); [|done]). auto.
  - unfold tx_checks. cbn [first_violation].
    repeat (destruct (bool_decide _); [|done]). done.
Qed.
End classifier_spec.

(** ** One step of the replay *)

Definition tx_inputs (tx_id : Z) (dv : DataValidator) : list InRow.t :=
  filter (λ i, InRow.tx_id i = tx_id) (in_df dv).

Definition tx_outputs (tx_id : Z) (dv : DataValidator) : list OutRow.t :=
  filter (λ o, OutRow.tx_id o = tx_id) (out_df dv).

(** The coinbase marker of the main loop (line 178). *)
Definition coinbase_marker (i : InRow.t) : Prop :=
  InRow.sig_id i = 0 ∧ InRow.out_id i = -1.

#[global] Instance coinbase_marker_dec i : Decision (coinbase_marker i).
Proof. unfold coinbase_marker. apply _. Defined.

(** What happens to a transaction in the main loop: accepted as a
    coinbase, accepted as a transfer, or rejected for a reason.  Accepted
    transactions carry the output ids they spend and produce. *)
Inductive event :=
  | Coinbase (tx_id : Z) (produced : list Z)
  | Transfer (tx_id : Z) (spent produced : list Z)
  | Rejected (tx_id : Z) (r : reason).

Definition event_tx (e : event) : Z :=
  match e with Coinbase t _ | Transfer t _ _ | Rejected t _ => t end.

Definition accepted (e : event) : Prop :=
  match e with Rejected _ _ => False | _ => True end.

Definition produced (e : event) : list Z :=
  match e with Coinbase _ p | Transfer _ _ p => p | Rejected _ _ => [] end.

(** A coinbase input spends nothing. *)
Definition consumed (e : event) : list Z :=
  match e with Transfer _ s _ => s | _ => [] end.

(** The decision of the main loop for [tx_id] in state [dv], worded with
    the rules; [None] when the transaction has no input row. *)
Definition step_event (tx_id : Z) (dv : DataValidator) : option event :=
  let inputs := tx_inputs tx_id dv in
  let outputs := tx_outputs tx_id dv in
  match head inputs with
  | None => None
  | Some first =>
      if decide (coinbase_marker first)
      then Some (Coinbase tx_id (OutRow.id <$> outputs))
      else
        match first_violation (checks dv inputs outputs) with
        | None =>
            Some (Transfer tx_id (InRow.out_id <$> inputs) (OutRow.id <$> outputs))
        | Some r => Some (Rejected tx_id r)
        end
  end.

(** The state an event leaves. *)
Definition apply_event (e : event) (dv : DataValidator) : DataValidator :=
  match e with
  | Rejected t r => drop_transaction t (record_reject r t dv)
  | _ =>
      set_utxo (list_to_set (produced e)
                ∪ (utxo dv ∖ list_to_set (consumed e))) dv
  end.

Section step.
Implicit Types (dv : DataValidator) (e : event).

Lemma iloc0_head {A} (l : list A) :
  iloc0 l = match head l with Some x => Ok x | None => Raise IndexError end.
Proof. by destruct l. Qed.

Lemma validate_tx_Ok t dv dv' :
  validate_tx t dv = Ok dv' →
  ∃ e, step_event t dv = Some e ∧ dv' = apply_event e dv ∧ event_tx e = t
       ∧ NoDup (consumed e) ∧ (∀ x, x ∈ consumed e → x ∈ utxo dv)
       ∧ (∀ r, e = Rejected t r → r ≠ InvalidCoinbase).
Proof.
  unfold validate_tx, step_event.
  fold (tx_inputs t dv) (tx_outputs t dv).
  cbv zeta. rewrite iloc0_head.
  destruct (head (tx_inputs t dv)) as [first|]; [|done].
  cbn [mbind result_bind].
  destruct (decide _) as [Hcb|Hcb].
  { intros [= <-]. eexists. split; [done|].
    simpl. rewrite add_unspent_union.
    repeat split; [f_equal; set_solver| constructor | set_solver | done]. }
  destruct (is_valid dv t _ _) as [[[] dv1]|] eqn:Hv; simpl; [| |done].
  - apply is_valid_true_inv in Hv as [-> Hfv]. rewrite Hfv.
    destruct (remove_spent _ _) as [s|] eqn:Hrm; simpl; [|done].
    apply remove_spent_inv in Hrm as (Hnd & Hsub & ->).
    intros [= <-]. eexists. split; [done|]. simpl.
    rewrite add_unspent_union. done.
  - apply is_valid_false_inv in Hv as (r & Hfv & -> & Hr). rewrite Hfv.
    intros [= <-]. eexists. split; [done|]. simpl.
    repeat split; [constructor | set_solver |]. by intros ? [= <-].
Qed.

Lemma validate_tx_no_KeyError t dv : validate_tx t dv ≠ Raise KeyError.
Proof.
  unfold validate_tx. rewrite iloc0_head.
  destruct (head _) as [first|]; [|done]. cbn [mbind result_bind].
  destruct (decide _); [done|].
  destruct (is_valid dv t _ _) as [[[] dv1]|e] eqn:Hv; simpl; [|done|].
  - apply is_valid_true_inv in Hv as [-> Hfv].
    apply first_violation_None_checks in Hfv as (Hall & Hnd & _).
    rewrite remove_spent_Ok; [done|done|].
    intros x (i & -> & Hi)%list_elem_of_fmap.
    eapply Forall_forall in Hall; [|done]. apply Hall.
  - intros [= ->]. by apply is_valid_no_KeyError in Hv.
Qed.

(** With a backed UTXO set, a transaction that has an input row is
    processed without an exception. *)
Lemma validate_tx_total t dv :
  utxo_backed dv → tx_inputs t dv ≠ [] → ∃ dv', validate_tx t dv = Ok dv'.
Proof.
  intros Hb Hin. unfold validate_tx. fold (tx_inputs t dv) (tx_outputs t dv).
  rewrite iloc0_head.
  destruct (head (tx_inputs t dv)) as [first|] eqn:Hi;
    [|by destruct (tx_inputs t dv)].
  cbn [mbind result_bind]. destruct (decide _); [by eexists|].
  rewrite is_valid_first_violation by done.
  destruct (first_violation _) as [r|] eqn:Hfv; simpl; [by eexists|].
  apply first_violation_None_checks in Hfv as (Hall & Hnd & _).
  rewrite remove_spent_Ok; [by eexists|done|].
  intros x (i & -> & Hx)%list_elem_of_fmap.
  eapply Forall_forall in Hall; [|done]. apply Hall.
Qed.
End step.

(** ** Prefixes of the replay *)

Fixpoint history (tx_ids : list Z) (dv : DataValidator) : list event :=
  match tx_ids with
  | [] => []
  | t :: rest =>
      match step_event t dv, validate_tx t dv with
      | Some e, Ok dv' => e :: history rest dv'
      | _, _ => []
      end
  end.

Section prefixes.
Implicit Types (dv : DataValidator) (pre post : list Z).

Lemma replay_app pre post dv :
  replay (pre ++ post) dv = replay pre dv ≫= replay post.
Proof.
  revert dv. induction pre as [|t pre IH]; intros dv; [done|].
  simpl. destruct (validate_tx t dv) as [dv'|]; simpl; [apply IH|done].
Qed.

Lemma replay_snoc pre t dv dvk :
  replay pre dv = Ok dvk → replay (pre ++ [t]) dv = validate_tx t dvk.
Proof.
  intros H. rewrite replay_app, H. simpl.
  by destruct (validate_tx t dvk).
Qed.

Lemma replay_snoc_inv pre t dv dv' :
  replay (pre ++ [t]) dv = Ok dv' →
  ∃ dvk, replay pre dv = Ok dvk ∧ validate_tx t dvk = Ok dv'.
Proof.
  rewrite replay_app. destruct (replay pre dv) as [dvk|]; [|done]. simpl.
  destruct (validate_tx t dvk) as [dv''|] eqn:E; [|done]. simpl.
  intros [= <-]. eauto.
Qed.

Lemma history_snoc pre t dv dvk dv' e :
  replay pre dv = Ok dvk → validate_tx t dvk = Ok dv' →
  step_event t dvk = Some e →
  history (pre ++ [t]) dv = history pre dv ++ [e].
Proof.
  revert dv. induction pre as [|u pre IH]; intros dv; simpl.
  - intros [= ->] -> ->. done.
  - destruct (validate_tx u dv) as [dv1|] eqn:Hu; [|done]. simpl.
    intros Hr Hv He.
    destruct (validate_tx_Ok _ _ _ Hu) as (eu & -> & _).
    simpl. f_equal. by eapply IH.
Qed.

Lemma replay_no_KeyError pre dv : replay pre dv ≠ Raise KeyError.
Proof.
  revert dv. induction pre as [|t pre IH]; intros dv; [done|]. simpl.
  destruct (validate_tx t dv) as [dv'|e] eqn:Hv; simpl; [apply IH|].
  intros [= ->]. by apply validate_tx_no_KeyError in Hv.
Qed.

(** Induction over the points of a replay. *)
Lemma replay_ind (I : list Z → DataValidator → Prop) dv0 :
  I [] dv0 →
  (∀ pre t dv dv', replay pre dv0 = Ok dv → I pre dv →
                   validate_tx t dv = Ok dv' → I (pre ++ [t]) dv') →
  ∀ pre dv, replay pre dv0 = Ok dv → I pre dv.
Proof.
  intros H0 Hstep pre. induction pre as [|t pre IH] using rev_ind.
  - by intros dv [= <-].
  - intros dv (dvk & Hk & Hv)%replay_snoc_inv. eauto.
Qed.
End prefixes.

(** ** The coinbase pre-pass *)

(** The transactions the pre-pass rejects, in the order of the loop. *)
Definition prepass_rejected (dv : DataValidator) : list Z :=
  fst <$> filter (λ kv, kv.2 < MINING_REWARD) (coinbase_outputs dv).

(** Recording and dropping a list of transactions as invalid coinbases. *)
Definition drop_coinbases (bad : list Z) (dv : DataValidator) : DataValidator :=
  mkDV (filter (λ t, TxRow.id t ∉ bad) (tx_df dv))
       (filter (λ i, InRow.tx_id i ∉ bad) (in_df dv))
       (filter (λ o, OutRow.tx_id o ∉ bad) (out_df dv))
       (n_invalid dv + Z.of_nat (length bad)) (utxo dv) (not_in_utxo dv)
       (neg_dest_pk dv) (invalid_pk dv) (neg_output dv) (not_enough_value dv)
       (invalid_coinbase dv ++ bad).

Section prepass.
Implicit Types (dv : DataValidator) (rows : list OutRow.t).

Lemma filter_not_in_nil {A} (f : A → Z) (l : list A) :
  filter (λ x, f x ∉ []) l = l.
Proof.
  induction l as [|x l IH]; [done|].
  rewrite filter_cons_True by apply not_elem_of_nil. by rewrite IH.
Qed.

Lemma filter_not_in_app {A} (f : A → Z) (b1 b2 : list Z) (l : list A) :
  filter (λ x, f x ∉ b2) (filter (λ x, f x ∉ b1) l)
  = filter (λ x, f x ∉ b1 ++ b2) l.
Proof.
  rewrite list_filter_filter. apply list_filter_iff. intros x.
  rewrite elem_of_app. tauto.
Qed.

Lemma filter_ne_not_in {A} (f : A → Z) (k : Z) (l : list A) :
  filter (λ x, f x ≠ k) l = filter (λ x, f x ∉ [k]) l.
Proof. apply list_filter_iff. intros x. rewrite list_elem_of_singleton. done. Qed.

Lemma drop_coinbases_nil dv : drop_coinbases [] dv = dv.
Proof.
  destruct dv. unfold drop_coinbases. simpl.
  rewrite !filter_not_in_nil, app_nil_r, Z.add_0_r. done.
Qed.

Lemma drop_coinbases_app b1 b2 dv :
  drop_coinbases b2 (drop_coinbases b1 dv) = drop_coinbases (b1 ++ b2) dv.
Proof.
  unfold drop_coinbases. simpl.
  rewrite !filter_not_in_app, length_app, <- app_assoc.
  f_equal. lia.
Qed.

Lemma drop_coinbases_one k dv :
  drop_transaction k (record_reject InvalidCoinbase k dv)
  = drop_coinbases [k] dv.
Proof.
  unfold drop_transaction, record_reject, drop_coinbases. simpl.
  by rewrite !filter_ne_not_in.
Qed.

Lemma foldl_prepass_step (l : list (Z * Z)) dv :
  foldl prepass_step dv l
  = drop_coinbases (fst <$> filter (λ kv, kv.2 < MINING_REWARD) l) dv.
Proof.
  revert dv. induction l as [|[k v] l IH]; intros dv.
  - simpl. by rewrite drop_coinbases_nil.
  - cbn [foldl]. rewrite IH. unfold prepass_step.
    rewrite filter_cons. simpl.
    destruct (v <? MINING_REWARD) eqn:Hv.
    + apply Z.ltb_lt in Hv. rewrite decide_True by done.
      rewrite drop_coinbases_one, drop_coinbases_app. done.
    + apply Z.ltb_ge in Hv. rewrite decide_False by lia. done.
Qed.

Lemma prepass_closed dv : prepass dv = drop_coinbases (prepass_rejected dv) dv.
Proof. apply foldl_prepass_step. Qed.

Lemma groupby_keys rows :
  fst <$> groupby_tx_value_sum rows
  = merge_sort Z.le (remove_dups (OutRow.tx_id <$> rows)).
Proof.
  unfold groupby_tx_value_sum. rewrite <- list_fmap_compose.
  apply list_fmap_id.
Qed.

Lemma elem_of_groupby rows k v :
  (k, v) ∈ groupby_tx_value_sum rows ↔
  k ∈ OutRow.tx_id <$> rows
  ∧ v = wrap64 (sum_list (OutRow.value <$>
                            filter (λ o, OutRow.tx_id o = k) rows)).
Proof.
  unfold groupby_tx_value_sum. rewrite list_elem_of_fmap.
  setoid_rewrite merge_sort_Permutation.
  setoid_rewrite elem_of_remove_dups.
  split.
  - intros (k' & [= -> ->] & Hk). done.
  - intros [Hk ->]. by exists k.
Qed.

Lemma NoDup_groupby_keys rows : NoDup (fst <$> groupby_tx_value_sum rows).
Proof.
  rewrite groupby_keys, merge_sort_Permutation. apply NoDup_remove_dups.
Qed.

Lemma NoDup_prepass_rejected dv : NoDup (prepass_rejected dv).
Proof.
  unfold prepass_rejected, coinbase_outputs.
  eapply sublist_NoDup; [apply NoDup_groupby_keys|].
  apply fmap_sublist, sublist_filter.
Qed.

Lemma elem_of_coinbase_tx dv k :
  k ∈ coinbase_tx dv ↔
  ∃ i, i ∈ in_df dv ∧ InRow.tx_id i = k ∧ InRow.sig_id i = 0.
Proof.
  unfold coinbase_tx. rewrite list_elem_of_fmap.
  setoid_rewrite list_elem_of_filter. naive_solver.
Qed.

Lemma elem_of_prepass_rejected dv k :
  k ∈ prepass_rejected dv ↔
  k ∈ coinbase_tx dv ∧ tx_outputs k dv ≠ []
  ∧ wrap64 (output_value (tx_outputs k dv)) < MINING_REWARD.
Proof.
  unfold prepass_rejected, coinbase_outputs. rewrite list_elem_of_fmap.
  setoid_rewrite list_elem_of_filter.
  assert (Hf : k ∈ coinbase_tx dv →
    filter (λ o, OutRow.tx_id o = k)
      (filter (λ o, OutRow.tx_id o ∈ coinbase_tx dv) (out_df dv))
    = tx_outputs k dv).
  { intros Hk. rewrite list_filter_filter. apply list_filter_iff.
    intros o. naive_solver. }
  split.
  - intros ([k' v] & -> & Hlt & (Hk & ->)%elem_of_groupby). simpl in *.
    apply list_elem_of_fmap in Hk as (o & -> & [Hcb Ho]%list_elem_of_filter).
    rewrite Hf in Hlt by done. split; [done|]. split; [|done].
    intros Hnil.
    assert (o ∈ tx_outputs (OutRow.tx_id o) dv) as Hin
      by (by apply list_elem_of_filter).
    rewrite Hnil in Hin. by apply elem_of_nil in Hin.
  - intros (Hk & Hne & Hlt).
    exists (k, wrap64 (output_value (tx_outputs k dv))).
    split; [done|]. split; [done|].
    apply elem_of_groupby. rewrite Hf by done. split; [|done].
    destruct (tx_outputs k dv) as [|o l] eqn:Ho; [done|].
    assert (o ∈ tx_outputs k dv) as [Hok Hin]%list_elem_of_filter
      by (rewrite Ho; left).
    apply list_elem_of_fmap. exists o. split; [done|].
    apply list_elem_of_filter. by rewrite Hok.
Qed.
End prepass.

(** ** Facts about events *)

Section events.
Implicit Types (dv : DataValidator) (e : event) (h : list event).

Lemma step_event_tx t dv e : step_event t dv = Some e → event_tx e = t.
Proof.
  unfold step_event. destruct (head _); [|done].
  destruct (decide _); [by intros [= <-]|].
  destruct (first_violation _); by intros [= <-].
Qed.

Lemma step_event_input t dv e :
  step_event t dv = Some e → ∃ i, i ∈ in_df dv ∧ InRow.tx_id i = t.
Proof.
  unfold step_event. destruct (head _) as [first|] eqn:Hh; [|done].
  intros _. exists first. apply head_Some_elem_of in Hh.
  by apply list_elem_of_filter in Hh as [??].
Qed.

Lemma step_event_produced t dv e :
  step_event t dv = Some e → accepted e →
  produced e = OutRow.id <$> tx_outputs t dv.
Proof.
  unfold step_event. destruct (head _); [|done].
  destruct (decide _); [by intros [= <-]|].
  destruct (first_violation _); by intros [= <-].
Qed.

Lemma step_event_coinbase t dv t' p :
  step_event t dv = Some (Coinbase t' p) →
  ∃ first, head (tx_inputs t dv) = Some first ∧ coinbase_marker first.
Proof.
  unfold step_event. destruct (head _) as [first|]; [|done].
  destruct (decide _); [by eauto|].
  by destruct (first_violation _).
Qed.

Lemma step_event_transfer t dv t' s p :
  step_event t dv = Some (Transfer t' s p) →
  (∃ first, head (tx_inputs t dv) = Some first ∧ ¬ coinbase_marker first)
  ∧ s = InRow.out_id <$> tx_inputs t dv
  ∧ first_violation (checks dv (tx_inputs t dv) (tx_outputs t dv)) = None.
Proof.
  unfold step_event. destruct (head _) as [first|]; [|done].
  destruct (decide _); [done|].
  destruct (first_violation _); [done|]. intros [= <- <- <-]. eauto.
Qed.

Lemma step_event_rejected t dv t' r :
  step_event t dv = Some (Rejected t' r) →
  (∃ first, head (tx_inputs t dv) = Some first ∧ ¬ coinbase_marker first)
  ∧ first_violation (checks dv (tx_inputs t dv) (tx_outputs t dv)) = Some r.
Proof.
  unfold step_event. destruct (head _) as [first|]; [|done].
  destruct (decide _); [done|].
  destruct (first_violation _); [|done]. intros [= <- <-]. eauto.
Qed.

Lemma utxo_apply_event e dv :
  utxo (apply_event e dv)
  = list_to_set (produced e) ∪ (utxo dv ∖ list_to_set (consumed e)).
Proof. destruct e; simpl; [done|done|set_solver]. Qed.

Lemma out_df_apply_event e dv :
  out_df (apply_event e dv)
  = match e with
    | Rejected t _ => filter (λ o, OutRow.tx_id o ≠ t) (out_df dv)
    | _ => out_df dv
    end.
Proof. by destruct e. Qed.

Lemma in_df_apply_event e dv :
  in_df (apply_event e dv)
  = match e with
    | Rejected t _ => filter (λ i, InRow.tx_id i ≠ t) (in_df dv)
    | _ => in_df dv
    end.
Proof. by destruct e. Qed.

Lemma tx_df_apply_event e dv :
  tx_df (apply_event e dv)
  = match e with
    | Rejected t _ => filter (λ x, TxRow.id x ≠ t) (tx_df dv)
    | _ => tx_df dv
    end.
Proof. by destruct e. Qed.

Lemma bucket_record_reject r r' t dv :
  bucket r' (record_reject r t dv)
  = if decide (r = r') then bucket r' dv ++ [t] else bucket r' dv.
Proof. by destruct r, r'. Qed.

Lemma bucket_apply_event e r' dv :
  bucket r' (apply_event e dv)
  = match e with
    | Rejected t r => if decide (r = r') then bucket r' dv ++ [t]
                      else bucket r' dv
    | _ => bucket r' dv
    end.
Proof.
  destruct e as [| |t r]; [by destruct r'..|].
  simpl. rewrite <- (bucket_record_reject r r' t dv). by destruct r'.
Qed.

Lemma n_invalid_apply_event e dv :
  n_invalid (apply_event e dv)
  = match e with
    | Rejected _ _ => n_invalid dv + 1
    | _ => n_invalid dv
    end.
Proof. by destruct e. Qed.
End events.

(** Induction over the points of a replay, with the history so far. *)
Lemma replay_history_ind
    (I : list Z → list event → DataValidator → Prop) dv0 :
  I [] [] dv0 →
  (∀ pre h t e dv,
     replay pre dv0 = Ok dv → h = history pre dv0 → I pre h dv →
     step_event t dv = Some e → event_tx e = t →
     NoDup (consumed e) → (∀ x, x ∈ consumed e → x ∈ utxo dv) →
     (∀ r, e = Rejected t r → r ≠ InvalidCoinbase) →
     I (pre ++ [t]) (h ++ [e]) (apply_event e dv)) →
  ∀ pre dv, replay pre dv0 = Ok dv → I pre (history pre dv0) dv.
Proof.
  intros H0 Hstep.
  apply (replay_ind (λ pre dv, I pre (history pre dv0) dv)); [done|].
  intros pre t dv dv' Hpre IH Hv.
  destruct (validate_tx_Ok _ _ _ Hv) as (e & He & -> & Ht & Hnd & Hsub & Hr).
  rewrite (history_snoc pre t dv0 dv _ e) by done. by apply Hstep.
Qed.

(** ** What a history says *)

Definition rejected_of (e : event) : list Z :=
  match e with Rejected t _ => [t] | _ => [] end.

Definition rejected_for_of (r : reason) (e : event) : list Z :=
  match e with
  | Rejected t r' => if decide (r' = r) then [t] else []
  | _ => []
  end.

(** The transactions a history rejects, and those it rejects for [r]. *)
Definition rejected_txs (h : list event) : list Z := h ≫= rejected_of.
Definition rejected_for (r : reason) (h : list event) : list Z :=
  h ≫= rejected_for_of r.

(** All output ids ever inserted, all output ids ever removed. *)
Definition inserted (h : list event) : gset Z := list_to_set (h ≫= produced).
Definition removed (h : list event) : gset Z := list_to_set (h ≫= consumed).

(** [x] was produced by an accepted transaction of the history and no
    later transaction of the history consumed it. *)
Definition produced_unspent (h : list event) (x : Z) : Prop :=
  ∃ h1 e h2, h = h1 ++ e :: h2 ∧ accepted e ∧ x ∈ produced e
             ∧ ∀ e', e' ∈ h2 → x ∉ consumed e'.

Section history.
Implicit Types (dv : DataValidator) (e : event) (h : list event).

Lemma produced_unspent_snoc h e x :
  produced_unspent (h ++ [e]) x ↔
  (accepted e ∧ x ∈ produced e) ∨ (produced_unspent h x ∧ x ∉ consumed e).
Proof.
  split.
  - intros (h1 & e0 & h2 & Heq & Hacc & Hx & Hlater).
    destruct h2 as [|e2 h2 _] using rev_ind.
    + apply app_inj_tail in Heq as [-> ->]. by left.
    + rewrite app_comm_cons, app_assoc in Heq.
      apply app_inj_tail in Heq as [-> ->]. right. split.
      * exists h1, e0, h2. repeat split; [done..|].
        intros e' He'. apply Hlater. apply elem_of_app. by left.
      * apply Hlater. apply elem_of_app. right. left.
  - intros [[Hacc Hx]|[(h1 & e0 & h2 & -> & Hacc & Hx & Hlater) Hne]].
    + exists h, e, []. repeat split; [done..|]. by intros e' ?%elem_of_nil.
    + exists h1, e0, (h2 ++ [e]). rewrite <- app_assoc. repeat split; [done..|].
      intros e' [?| ->%list_elem_of_singleton]%elem_of_app; auto.
Qed.

Lemma produced_unspent_nil x : ¬ produced_unspent [] x.
Proof. intros (h1 & e & h2 & Heq & _). by destruct h1. Qed.

Lemma produced_rejected e : ¬ accepted e → produced e = [].
Proof. by destruct e. Qed.

Lemma rejected_txs_snoc h e :
  rejected_txs (h ++ [e]) = rejected_txs h ++ rejected_of e.
Proof. unfold rejected_txs. by rewrite bind_app, bind_cons, app_nil_r. Qed.

Lemma rejected_for_snoc r h e :
  rejected_for r (h ++ [e]) = rejected_for r h ++ rejected_for_of r e.
Proof. unfold rejected_for. by rewrite bind_app, bind_cons, app_nil_r. Qed.

Lemma inserted_snoc h e :
  inserted (h ++ [e]) = inserted h ∪ list_to_set (produced e).
Proof.
  unfold inserted. rewrite bind_app, bind_cons, app_nil_r.
  by rewrite list_to_set_app_L.
Qed.

Lemma removed_snoc h e :
  removed (h ++ [e]) = removed h ∪ list_to_set (consumed e).
Proof.
  unfold removed. rewrite bind_app, bind_cons, app_nil_r.
  by rewrite list_to_set_app_L.
Qed.

Lemma filter_drop_rejected {A} (f : A → Z) (bad : list Z) e (l : list A) :
  match e with
  | Rejected t _ => filter (λ x, f x ≠ t) (filter (λ x, f x ∉ bad) l)
  | _ => filter (λ x, f x ∉ bad) l
  end = filter (λ x, f x ∉ bad ++ rejected_of e) l.
Proof.
  destruct e; simpl; rewrite ?app_nil_r; [done..|].
  by rewrite filter_ne_not_in, filter_not_in_app.
Qed.

(** The relations, the lists and the counter at a point of the replay,
    from the history up to that point. *)
Definition frames_at dv0 (pre : list Z) h dv : Prop :=
  event_tx <$> h = pre
  ∧ tx_df dv = filter (λ t, TxRow.id t ∉ rejected_txs h) (tx_df dv0)
  ∧ in_df dv = filter (λ i, InRow.tx_id i ∉ rejected_txs h) (in_df dv0)
  ∧ out_df dv = filter (λ o, OutRow.tx_id o ∉ rejected_txs h) (out_df dv0)
  ∧ (∀ r, bucket r dv = bucket r dv0 ++ rejected_for r h)
  ∧ n_invalid dv = n_invalid dv0 + Z.of_nat (length (rejected_txs h))
  ∧ rejected_for InvalidCoinbase h = [].

Lemma replay_frames dv0 pre dv :
  replay pre dv0 = Ok dv → frames_at dv0 pre (history pre dv0) dv.
Proof.
  revert pre dv. apply (replay_history_ind (frames_at dv0)); unfold frames_at.
  - unfold rejected_txs, rejected_for. simpl.
    rewrite !filter_not_in_nil, Z.add_0_r.
    repeat split. intros r. by rewrite app_nil_r.
  - intros pre h t e dv _ _ (Hev & Htx & Hin & Hout & Hb & Hn & Hic)
      He Ht _ _ Hr.
    rewrite fmap_app, Hev. simpl. rewrite Ht. split; [done|].
    rewrite tx_df_apply_event, in_df_apply_event, out_df_apply_event.
    rewrite Htx, Hin, Hout, rejected_txs_snoc, !rejected_for_snoc.
    rewrite <- !filter_drop_rejected.
    split; [done|]. split; [done|]. split; [done|]. split; [|split].
    + intros r. rewrite bucket_apply_event, Hb, rejected_for_snoc.
      destruct e as [| |t' r']; simpl; rewrite ?app_nil_r; [done..|].
      destruct (decide (r' = r)); [by rewrite app_assoc|by rewrite app_nil_r].
    + rewrite n_invalid_apply_event, Hn, length_app.
      destruct e; simpl; lia.
    + rewrite Hic. destruct e as [| |t' r']; [done..|]. simpl.
      rewrite decide_False; [done|]. simpl in Ht. subst t'. by apply Hr.
Qed.
End history.

(** ** The UTXO set along a replay *)

Section utxo_replay.
Context (dv0 : DataValidator) (Hempty : utxo dv0 = ∅).
Implicit Types (dv : DataValidator) (e : event) (h : list event).

Lemma replay_utxo_iff pre dv :
  replay pre dv0 = Ok dv →
  ∀ x, x ∈ utxo dv ↔ produced_unspent (history pre dv0) x.
Proof using Hempty.
  revert pre dv.
  apply (replay_history_ind
           (λ _ h dv, ∀ x, x ∈ utxo dv ↔ produced_unspent h x)).
  - intros x. rewrite Hempty. split; [set_solver|].
    by intros ?%produced_unspent_nil.
  - intros pre h t e dv _ _ IH _ _ _ _ _ x.
    rewrite utxo_apply_event, produced_unspent_snoc.
    rewrite elem_of_union, elem_of_difference, !elem_of_list_to_set, IH.
    split; [|tauto]. intros [Hx|?]; [left|tauto]. split; [|done].
    destruct e; simpl in *; [done..|by apply elem_of_nil in Hx].
Qed.

(** The ids an accepted transaction produces are ids of its rows. *)
Lemma replay_produced_rows pre dv :
  replay pre dv0 = Ok dv →
  ∀ e x, e ∈ history pre dv0 → accepted e → x ∈ produced e →
  ∃ o, o ∈ out_df dv0 ∧ OutRow.id o = x ∧ OutRow.tx_id o = event_tx e.
Proof.
  revert pre dv.
  apply (replay_history_ind
           (λ _ h _, ∀ e x, e ∈ h → accepted e → x ∈ produced e →
              ∃ o, o ∈ out_df dv0 ∧ OutRow.id o = x
                   ∧ OutRow.tx_id o = event_tx e)).
  - by intros e x ?%elem_of_nil.
  - intros pre h t e dv Hpre _ IH He Ht _ _ _ e' x
      [?| ->%list_elem_of_singleton]%elem_of_app Hacc Hx; [by eauto|].
    rewrite (step_event_produced _ _ _ He Hacc) in Hx.
    apply list_elem_of_fmap in Hx as (o & -> & [Ho Hin]%list_elem_of_filter).
    exists o. rewrite Ht. split; [|done].
    destruct (replay_frames _ _ _ Hpre) as (_ & _ & _ & Hout & _).
    rewrite Hout in Hin. by apply list_elem_of_filter in Hin as [_ ?].
Qed.

Lemma NoDup_fmap_eq {A} (f : A → Z) (l : list A) x y :
  NoDup (f <$> l) → x ∈ l → y ∈ l → f x = f y → x = y.
Proof.
  induction l as [|a l IH]; [by intros _ ?%elem_of_nil|].
  rewrite fmap_cons, NoDup_cons.
  intros [Ha Hnd] [->|Hx]%elem_of_cons [->|Hy]%elem_of_cons Hf; [done| | |auto].
  - exfalso. apply Ha. rewrite Hf. by apply list_elem_of_fmap_2.
  - exfalso. apply Ha. rewrite <- Hf. by apply list_elem_of_fmap_2.
Qed.

Lemma elem_of_inserted h x :
  x ∈ inserted h ↔ ∃ e, e ∈ h ∧ x ∈ produced e.
Proof.
  unfold inserted. rewrite elem_of_list_to_set, list_elem_of_bind. naive_solver.
Qed.

Lemma elem_of_removed h x :
  x ∈ removed h ↔ ∃ e, e ∈ h ∧ x ∈ consumed e.
Proof.
  unfold removed. rewrite elem_of_list_to_set, list_elem_of_bind. naive_solver.
Qed.

(** With unique transaction ids and unique output ids, no id is inserted
    twice, and the set is what was inserted minus what was removed. *)
Lemma replay_conservation pre dv :
  NoDup (OutRow.id <$> out_df dv0) →
  replay pre dv0 = Ok dv → NoDup pre →
  utxo dv = inserted (history pre dv0) ∖ removed (history pre dv0)
  ∧ removed (history pre dv0) ⊆ inserted (history pre dv0).
Proof using Hempty.
  intros Hids. revert pre dv.
  apply (replay_history_ind
           (λ pre h dv, NoDup pre →
              utxo dv = inserted h ∖ removed h ∧ removed h ⊆ inserted h)).
  - intros _. rewrite Hempty. unfold inserted, removed. simpl. set_solver.
  - intros pre h t e dv Hpre -> IH He Ht _ Hsub _ [Hnd [Hfresh _]]%NoDup_app.
    destruct (IH Hnd) as [HU HR]. clear IH.
    rewrite utxo_apply_event, inserted_snoc, removed_snoc.
    assert (Hdisj : ∀ x, x ∈ produced e → x ∉ inserted (history pre dv0)).
    { intros x Hx (e' & He' & Hx')%elem_of_inserted.
      assert (accepted e) as Hacc
        by (destruct e; [done..|by apply elem_of_nil in Hx]).
      assert (accepted e') as Hacc'
        by (destruct e'; [done..|by apply elem_of_nil in Hx']).
      destruct (replay_produced_rows _ _ Hpre e' x He' Hacc' Hx')
        as (o' & Ho' & Hid' & Htx').
      rewrite (step_event_produced _ _ _ He Hacc) in Hx.
      apply list_elem_of_fmap in Hx as (o & -> & [Ho Hin]%list_elem_of_filter).
      destruct (replay_frames _ _ _ Hpre) as (Hev & _ & _ & Hout & _).
      rewrite Hout in Hin. apply list_elem_of_filter in Hin as [_ Hin].
      assert (o' = o) as -> by (by eapply NoDup_fmap_eq).
      apply (Hfresh t); [|left]. rewrite <- Hev, <- Ho, Htx'.
      by apply list_elem_of_fmap_2. }
    assert (Hsub' : ∀ x, x ∈ consumed e → x ∈ inserted (history pre dv0)).
  { intros x Hx%Hsub. rewrite HU in Hx.
    by apply elem_of_difference in Hx as [? _]. }
    split.
    + apply set_eq. intros x.
    specialize (Hdisj x). specialize (Hsub' x).
    assert (x ∈ removed (history pre dv0) → x ∈ inserted (history pre dv0))
      as HRx by (apply HR).
    rewrite HU.
    rewrite !elem_of_union, !elem_of_difference, !elem_of_union,
      !elem_of_list_to_set.
    tauto.
    + intros x [Hx|Hx%elem_of_list_to_set]%elem_of_union; apply elem_of_union.
      * left. by apply HR.
      * left. by apply Hsub'.
Qed.
End utxo_replay.

(** ** More on the order of the checks *)

Section check_order.
Context (dv : DataValidator).

(** Rules 1-3 hold on an input. *)
Definition input_rules_hold (i : InRow.t) : Prop :=
  membership dv i ∧ ownership dv i ∧ destination dv i.

Lemma first_violation_inputs_pass (rows : list InRow.t) :
  Forall input_rules_hold rows →
  first_violation (rows ≫= input_checks dv) = None.
Proof.
  induction 1 as [|i rows (H1 & H2 & H3) _ IH]; [done|].
  rewrite bind_cons. unfold input_checks at 1. cbn [app first_violation].
  by rewrite !bool_decide_eq_true_2.
Qed.

Lemma scan_inputs_pass (rows : list InRow.t) :
  Forall input_rules_hold rows → scan_inputs dv rows = Ok None.
Proof.
  induction 1 as [|i rows (H1 & H2 & H3) _ IH]; [done|].
  cbn [scan_inputs]. rewrite decide_False by (by intros Hn; apply Hn).
  rewrite iloc0_fmap_head. fold (referenced dv i).
  unfold ownership in H2. destruct (referenced dv i) as [o|]; [|done].
  injection H2 as H2. cbn [mbind result_bind].
  rewrite decide_False by (by intros Hn; apply Hn).
  rewrite existsb_bad_pk. fold (destination dv i).
  by rewrite bool_decide_eq_true_2.
Qed.

Lemma ownership_referenced i : ownership dv i → is_Some (referenced dv i).
Proof. unfold ownership. by destruct (referenced dv i); [eexists|]. Qed.

(** When rules 1-3 hold on every input, [is_valid] returns, and what it
    returns is decided by rules 4-6. *)
Lemma is_valid_inputs_pass tx_id inputs outputs :
  Forall input_rules_hold inputs →
  is_valid dv tx_id inputs outputs
  = Ok (outcome (first_violation (tx_checks dv inputs outputs)) tx_id dv).
Proof.
  intros Hall. pose proof (first_violation_inputs_pass _ Hall) as Hfv.
  rewrite is_valid_scanned.
  - unfold checks. by rewrite first_violation_app, Hfv.
  - by rewrite Hfv, scan_inputs_pass.
  - intros _. eapply Forall_impl; [exact Hall|].
    intros i (_ & Ho & _). by apply ownership_referenced.
Qed.

(** The first violation is the first check of the list that fails. *)
Lemma first_violation_Some cs r :
  first_violation cs = Some r ↔
  ∃ cs1 cs2, cs = cs1 ++ (r, false) :: cs2 ∧ Forall (λ c, c.2 = true) cs1.
Proof.
  induction cs as [|[r' b] cs IH]; simpl.
  - split; [done|]. intros (cs1 & cs2 & Heq & _). by destruct cs1.
  - destruct b.
    + rewrite IH. split.
      * intros (cs1 & cs2 & -> & Hall). exists ((r', true) :: cs1), cs2.
        split; [done|]. by constructor.
      * intros (cs1 & cs2 & Heq & Hall). destruct cs1 as [|c cs1].
        { by injection Heq. }
        simpl in Heq. injection Heq as Hc Hcs. subst c cs.
        apply Forall_cons in Hall as [_ Hall]. eauto.
    + split.
      * intros [= ->]. exists [], cs. by split.
      * intros (cs1 & cs2 & Heq & Hall). destruct cs1 as [|c cs1].
        { by injection Heq as ->. }
        simpl in Heq. injection Heq as Hc Hcs. subst c cs.
        by apply Forall_cons in Hall as [[=] _].
Qed.

Lemma first_violation_None cs :
  first_violation cs = None ↔ Forall (λ c, c.2 = true) cs.
Proof.
  induction cs as [|[r' b] cs IH]; simpl; [by split; [constructor|]|].
  destruct b.
  - rewrite IH. split; [by constructor|]. by intros [_ ?]%Forall_cons.
  - split; [done|]. by intros [[=] _]%Forall_cons.
Qed.

(** When the referenced total fits 64 bits whenever rule 6 is reached,
    the test of line 139 decides rule 6 as the specification words it. *)
Lemma first_violation_spec_checks inputs outputs :
  (Forall input_rules_hold inputs → no_double_spend inputs →
   non_negative outputs → in_int64 (input_value dv inputs)) →
  first_violation (spec_checks dv inputs outputs)
  = first_violation (checks dv inputs outputs).
Proof.
  intros Hfit. unfold spec_checks, checks. rewrite !first_violation_app.
  destruct (first_violation (inputs ≫= input_checks dv)) eqn:Hin; [done|].
  apply first_violation_None_inputs in Hin.
  unfold spec_tx_checks, tx_checks. cbn [first_violation].
  destruct (bool_decide (no_double_spend inputs)) eqn:H4; [|done].
  destruct (bool_decide (non_negative outputs)) eqn:H5; [|done].
  apply bool_decide_eq_true in H4, H5.
  rewrite (bool_decide_ext (conservation dv inputs outputs)
             (enough_value dv inputs outputs)); [done|].
  symmetry. apply enough_value_conservation. by apply Hfit.
Qed.
End check_order.

(** What the statements before a [return False] leave: the counter one
    higher, [tx_id] appended to the list of the reason, every other list,
    the relations and the UTXO set as they were. *)
Definition recorded (r : reason) (tx_id : Z) (dv dv' : DataValidator) : Prop :=
  bucket r dv' = bucket r dv ++ [tx_id]
  ∧ (∀ r', r' ≠ r → bucket r' dv' = bucket r' dv)
  ∧ n_invalid dv' = n_invalid dv + 1
  ∧ tx_df dv' = tx_df dv ∧ in_df dv' = in_df dv ∧ out_df dv' = out_df dv
  ∧ utxo dv' = utxo dv.

Lemma recorded_record_reject r tx_id dv :
  recorded r tx_id dv (record_reject r tx_id dv).
Proof.
  unfold recorded. rewrite bucket_record_reject, decide_True by done.
  split; [done|]. split; [|done].
  intros r' Hr'. by rewrite bucket_record_reject, decide_False.
Qed.

(** ** The classifier: safety of removal, rule order, buckets *)

(** [ledger_ok] after its coinbase: output 10 is unspent. *)
Definition after_coinbase : DataValidator :=
  set_utxo {[10]} ledger_ok.

Definition spend_10 : list InRow.t := [InRow.mk 2 2 7 10].
Definition pay_11_12 : list OutRow.t :=
  [OutRow.mk 11 2 8 3000000000; OutRow.mk 12 2 9 1000000000].

(** C6. Safety of UTXO removal: when [is_valid] accepts a transfer, every
    referenced out_id is in the UTXO set at the moment the accept branch
    removes it, the ids are pairwise distinct so each is removed once, and
    the removal loop ends without [KeyError].  In the main loop: when the
    transaction is a transfer (its first input lacks the coinbase marker)
    and [is_valid] accepts it, the body of the loop completes, the set it
    leaves is the old set without the referenced ids and with the produced
    ids, every referenced id was in the old set and is in the new one only
    if the transaction produces it again, and the relations, the lists
    and the counter are untouched.  No replay raises [KeyError]. *)
Theorem accept_removal_safe dv tx_id inputs outputs dv' :
  is_valid dv tx_id inputs outputs = Ok (true, dv') →
  utxo dv' = utxo dv
  ∧ NoDup (InRow.out_id <$> inputs)
  ∧ (∀ before x after,
       InRow.out_id <$> inputs = before ++ x :: after →
       ∃ s, remove_spent before (utxo dv') = Ok s ∧ x ∈ s
            ∧ utxo_remove x s = Ok (s ∖ {[x]}) ∧ x ∉ after)
  ∧ remove_spent (InRow.out_id <$> inputs) (utxo dv')
    = Ok (utxo dv' ∖ list_to_set (InRow.out_id <$> inputs))
  ∧ (∀ first,
       inputs = tx_inputs tx_id dv → outputs = tx_outputs tx_id dv →
       head inputs = Some first → ¬ coinbase_marker first →
       ∃ dv'', validate_tx tx_id dv = Ok dv''
         ∧ utxo dv'' = list_to_set (OutRow.id <$> outputs)
                       ∪ (utxo dv ∖ list_to_set (InRow.out_id <$> inputs))
         ∧ (∀ x, x ∈ InRow.out_id <$> inputs →
                 x ∈ utxo dv
                 ∧ (x ∈ utxo dv'' → x ∈ OutRow.id <$> outputs))
         ∧ (∀ x, x ∈ utxo dv → (x ∉ (InRow.out_id <$> inputs)) → x ∈ utxo dv'')
         ∧ tx_df dv'' = tx_df dv ∧ in_df dv'' = in_df dv
         ∧ out_df dv'' = out_df dv ∧ n_invalid dv'' = n_invalid dv
         ∧ ∀ r, bucket r dv'' = bucket r dv)
  ∧ (∀ tx_ids d, replay tx_ids d ≠ Raise KeyError).
Proof.
  intros Hv. pose proof Hv as [-> Hfv]%is_valid_true_inv.
  apply first_violation_None_checks in Hfv as (Hall & Hnd & _).
  assert (Hmem : ∀ x, x ∈ InRow.out_id <$> inputs → x ∈ utxo dv).
  { intros x (i & -> & Hi)%list_elem_of_fmap.
    eapply Forall_forall in Hall; [|done]. apply Hall. }
  split; [done|]. split; [done|]. split; [|split; [|split]].
  - intros before x after Heq. unfold no_double_spend in Hnd.
    rewrite Heq in Hnd, Hmem.
    apply NoDup_app in Hnd as (Hb & Hdisj & [Hx Ha]%NoDup_cons).
    exists (utxo dv ∖ list_to_set before).
    assert (x ∈ utxo dv ∖ list_to_set before) as Hin.
    { apply elem_of_difference. split.
      - apply Hmem, elem_of_app. right. left.
      - rewrite elem_of_list_to_set. intros Hxb.
        apply (Hdisj x Hxb). left. }
    split; [|split; [done|split; [|done]]].
    + apply remove_spent_Ok; [done|]. intros y Hy. apply Hmem, elem_of_app.
      by left.
    + unfold utxo_remove. by rewrite decide_True.
  - by apply remove_spent_Ok.
  - intros first Hi Ho Hfirst Hncb.
    unfold validate_tx. fold (tx_inputs tx_id dv) (tx_outputs tx_id dv).
    rewrite <- Hi, <- Ho, iloc0_head, Hfirst. cbn [mbind result_bind].
    unfold coinbase_marker in Hncb. rewrite decide_False by done.
    rewrite Hv. cbn [mbind result_bind].
    rewrite remove_spent_Ok by done. cbn [mbind result_bind].
    eexists. split; [done|]. rewrite add_unspent_union.
    split; [done|]. split; [|split; [|by repeat split; intros []]].
    + intros x Hx. split; [by apply Hmem|]. simpl.
      rewrite elem_of_union, elem_of_difference, !elem_of_list_to_set.
      tauto.
    + intros x Hx Hnx. simpl.
      rewrite elem_of_union, elem_of_difference, !elem_of_list_to_set.
      tauto.
  - intros tx_ids d. apply replay_no_KeyError.
Qed.

Lemma accept_removal_safe_witness :
  ∃ dv'', validate_tx 2 after_coinbase = Ok dv''
    ∧ utxo dv'' = list_to_set (OutRow.id <$> pay_11_12)
                  ∪ (utxo after_coinbase
                     ∖ list_to_set (InRow.out_id <$> spend_10)).
Proof.
  assert (H : is_valid after_coinbase 2 spend_10 pay_11_12
              = Ok (true, after_coinbase)) by (vm_compute; reflexivity).
  destruct (accept_removal_safe after_coinbase 2 spend_10 pay_11_12
              after_coinbase H) as (_ & _ & _ & _ & Hloop & _).
  destruct (Hloop (InRow.mk 2 2 7 10)) as (dv'' & Hv & Hu & _);
    [reflexivity|reflexivity|reflexivity|by intros [[=] _]|].
  exists dv''. by split.
Defined.

(** Outputs 10 and 11, of 2^62 each, are unspent and owned by key 7;
    transaction 3 spends both into output 12, of value 1. *)
Definition ledger_two_large : DataValidator :=
  init class_body [tx 1; tx 2; tx 3]
    [InRow.mk 1 1 0 (-1); InRow.mk 2 2 0 (-1);
     InRow.mk 3 3 7 10; InRow.mk 4 3 7 11]
    [OutRow.mk 10 1 7 (2 ^ 62); OutRow.mk 11 2 7 (2 ^ 62);
     OutRow.mk 12 3 8 1].

Definition after_two_large : DataValidator :=
  set_utxo {[10; 11]} ledger_two_large.

(** C7, as stated, fails: for transaction 3 of [ledger_two_large], after
    the two coinbases, every rule holds as the specification words it
    (the inputs reference 2^63, the outputs carry 1), and [is_valid]
    rejects the transaction with NotEnoughValue: the 64-bit [tot_input]
    has wrapped to -2^63.  The whole pass reports the transaction in
    [not_enough_value]. *)
Lemma classifier_rule_order_counterexample :
  replay [1; 2] (prepass ledger_two_large) = Ok after_two_large
  ∧ Forall (λ c, c.2 = true)
      (spec_checks after_two_large (tx_inputs 3 after_two_large)
         (tx_outputs 3 after_two_large))
  ∧ input_value after_two_large (tx_inputs 3 after_two_large) = 2 ^ 63
  ∧ output_value (tx_outputs 3 after_two_large) = 1
  ∧ (∃ dv', is_valid after_two_large 3 (tx_inputs 3 after_two_large)
              (tx_outputs 3 after_two_large) = Ok (false, dv')
            ∧ not_enough_value dv' = [3])
  ∧ (∃ dv w, validate_data ledger_two_large = Ok (dv, w)
             ∧ tx_ids (r_not_enough_value (validation_analytics w)) = [3]
             ∧ validated_transactions w = [tx 1; tx 2]).
Proof.
  split; [vm_compute; reflexivity|]. split; [by_compute|].
  split; [vm_compute; reflexivity|]. split; [vm_compute; reflexivity|].
  split; eexists; [|eexists]; vm_compute; done.
Qed.

(** C7, amended. Rule order and short-circuit: the checks form one
    sequence, rules 1, 2, 3 on the first input, then on the second input,
    and so on in record order, then rules 4, 5 and 6.  Provided both
    totals fit 64 bits whenever rule 6 is reached: whenever [is_valid]
    returns, it accepts iff every check of the sequence holds, and
    otherwise it counts the transaction and appends it to the list of the
    reason of the first check of the sequence that fails, and to no other
    list; with a backed UTXO set it always returns.  A rejection decided
    by rules 4-6 means rules 1-3 held on every input. *)
Theorem classifier_rule_order dv tx_id inputs outputs :
  (Forall (input_rules_hold dv) inputs → no_double_spend inputs →
   non_negative outputs → totals_fit dv inputs outputs) →
  (∀ res, is_valid dv tx_id inputs outputs = Ok res →
     (res = (true, dv)
      ∧ Forall (λ c, c.2 = true) (spec_checks dv inputs outputs))
     ∨ (∃ r cs1 cs2 dv',
          res = (false, dv')
          ∧ spec_checks dv inputs outputs = cs1 ++ (r, false) :: cs2
          ∧ Forall (λ c, c.2 = true) cs1
          ∧ recorded r tx_id dv dv'))
  ∧ (utxo_backed dv → ∃ res, is_valid dv tx_id inputs outputs = Ok res)
  ∧ (∀ r dv', is_valid dv tx_id inputs outputs = Ok (false, dv') →
       first_violation (inputs ≫= input_checks dv) = None →
       first_violation (spec_tx_checks dv inputs outputs) = Some r →
       recorded r tx_id dv dv' ∧ Forall (input_rules_hold dv) inputs)
  ∧ (∀ r dv', is_valid dv tx_id inputs outputs = Ok (false, dv') →
       first_violation (inputs ≫= input_checks dv) = Some r →
       recorded r tx_id dv dv').
Proof.
  intros Hfit.
  assert (Hspec : first_violation (spec_checks dv inputs outputs)
                  = first_violation (checks dv inputs outputs)).
  { apply first_violation_spec_checks. intros H13 H4 H5.
    by destruct (Hfit H13 H4 H5). }
  split; [|split; [|split]].
  - intros res ->%is_valid_Ok. rewrite <- Hspec.
    destruct (first_violation (spec_checks dv inputs outputs)) as [r|] eqn:Hfv.
    + right. apply first_violation_Some in Hfv as (cs1 & cs2 & Hcs & Hall).
      exists r, cs1, cs2, (record_reject r tx_id dv).
      split; [done|]. split; [done|]. split; [done|].
      apply recorded_record_reject.
    + left. by apply first_violation_None in Hfv.
  - intros Hb. eexists. by apply is_valid_first_violation.
  - intros r dv' Hv%is_valid_Ok Hin Htx. revert Hv. rewrite <- Hspec.
    unfold spec_checks. rewrite first_violation_app, Hin, Htx. simpl.
    intros [= ->]. split; [apply recorded_record_reject|].
    by apply first_violation_None_inputs.
  - intros r dv' Hv%is_valid_Ok Hin. revert Hv. unfold checks.
    rewrite first_violation_app, Hin. simpl. intros [= ->].
    apply recorded_record_reject.
Qed.

Lemma classifier_rule_order_witness :
  ∃ res, is_valid after_coinbase 2 spend_10 pay_11_12 = Ok res.
Proof.
  apply (classifier_rule_order after_coinbase 2 spend_10 pay_11_12).
  - intros _ _ _. by_compute.
  - intros x Hx. exists (OutRow.mk 10 1 7 5000000000).
    change (x ∈ ({[10]} : gset Z)) in Hx. apply elem_of_singleton in Hx as ->.
    split; [left|reflexivity].
Defined.

(** C5. Internal double-spend: a transfer whose inputs reference the same
    out_id twice is never accepted, and when every referenced id is in the
    UTXO set and rules 1-3 hold on every input, [is_valid] returns [False]
    after appending the transaction to [not_in_utxo] — the list of the
    membership rule — and to no other list. *)
Theorem internal_double_spend_bucket dv tx_id inputs outputs :
  ¬ NoDup (InRow.out_id <$> inputs) →
  (∀ res, is_valid dv tx_id inputs outputs = Ok res → res.1 = false)
  ∧ (Forall (input_rules_hold dv) inputs →
     ∃ dv', is_valid dv tx_id inputs outputs = Ok (false, dv')
            ∧ not_in_utxo dv' = not_in_utxo dv ++ [tx_id]
            ∧ (∀ r, r ≠ NotInUtxo → bucket r dv' = bucket r dv)
            ∧ n_invalid dv' = n_invalid dv + 1
            ∧ utxo dv' = utxo dv).
Proof.
  intros Hdup. split.
  - intros res ->%is_valid_Ok.
    destruct (first_violation (checks dv inputs outputs)) eqn:Hfv; [done|].
    by apply first_violation_None_checks in Hfv as (_ & ? & _).
  - intros Hall. rewrite is_valid_inputs_pass by done.
    unfold tx_checks. cbn [first_violation].
    rewrite (bool_decide_eq_false_2 (no_double_spend inputs)) by done.
    eexists. split; [done|]. simpl. split; [done|]. split; [|done].
    by intros [].
Qed.

(** Both inputs of transaction 3 reference output 10, which is unspent
    and owned by the signer. *)
Definition spend_10_twice : list InRow.t :=
  [InRow.mk 2 3 7 10; InRow.mk 3 3 7 10].

Lemma internal_double_spend_bucket_witness :
  ∃ dv', is_valid after_coinbase 3 spend_10_twice [] = Ok (false, dv')
         ∧ not_in_utxo dv' = not_in_utxo after_coinbase ++ [3]
         ∧ (∀ r, r ≠ NotInUtxo → bucket r dv' = bucket r after_coinbase)
         ∧ n_invalid dv' = n_invalid after_coinbase + 1
         ∧ utxo dv' = utxo after_coinbase.
Proof.
  apply (internal_double_spend_bucket after_coinbase 3 spend_10_twice []).
  - vm_compute. intros H. apply NoDup_cons in H as [H _]. apply H. left.
  - repeat constructor; vm_compute; try done; set_solver.
Defined.

(** ** Value conservation *)

(** tx 1: coinbase paying 5_000_000_000 to key 7 (output 10); tx 2: key 7
    spends output 10 into output 11 of 6_000_000_000 and output 12 of
    -5: more than it spends, and with a negative output. *)
Definition ledger_overspend_negative : DataValidator :=
  init class_body [tx 1; tx 2]
    [InRow.mk 1 1 0 (-1); InRow.mk 2 2 7 10]
    [OutRow.mk 10 1 7 5000000000; OutRow.mk 11 2 8 6000000000;
     OutRow.mk 12 2 9 (-5)].

(** tx 1: a coinbase with outputs 10 and 11 of -2^63 each and output 12
    of 5_000_000_000, all to key 7; tx 2: key 7 spends the three into
    output 13, of value 1. *)
Definition ledger_wrapped_spend : DataValidator :=
  init class_body [tx 1; tx 2]
    [InRow.mk 1 1 0 (-1); InRow.mk 2 2 7 10; InRow.mk 3 2 7 11;
     InRow.mk 4 2 7 12]
    [OutRow.mk 10 1 7 (- 2 ^ 63); OutRow.mk 11 1 7 (- 2 ^ 63);
     OutRow.mk 12 1 7 5000000000; OutRow.mk 13 2 8 1].

Definition after_wrapped_coinbase : DataValidator :=
  set_utxo {[10; 11; 12]} ledger_wrapped_spend.

(** C2, as stated, fails.  Transaction 2 of [ledger_overspend_negative]
    references less value than it produces and is rejected, but the
    reason recorded is the one of rule 5, not NotEnoughValue.
    Transaction 2 of [ledger_wrapped_spend] references
    5_000_000_000 - 2^64 and produces 1, and it is accepted: the 64-bit
    [tot_input] has wrapped to 5_000_000_000. *)
Lemma value_conservation_counterexample :
  (∃ dv w,
     validate_data ledger_overspend_negative = Ok (dv, w)
     ∧ input_value (set_utxo {[10]} ledger_overspend_negative)
         (tx_inputs 2 ledger_overspend_negative)
       < output_value (tx_outputs 2 ledger_overspend_negative)
     ∧ tx_ids (r_neg_output (validation_analytics w)) = [2]
     ∧ tx_ids (r_not_enough_value (validation_analytics w)) = [])
  ∧ replay [1] (prepass ledger_wrapped_spend) = Ok after_wrapped_coinbase
  ∧ input_value after_wrapped_coinbase (tx_inputs 2 after_wrapped_coinbase)
    = 5000000000 - 2 ^ 64
  ∧ output_value (tx_outputs 2 after_wrapped_coinbase) = 1
  ∧ is_valid after_wrapped_coinbase 2 (tx_inputs 2 after_wrapped_coinbase)
      (tx_outputs 2 after_wrapped_coinbase)
    = Ok (true, after_wrapped_coinbase)
  ∧ (∃ dv w,
       validate_data ledger_wrapped_spend = Ok (dv, w)
       ∧ validated_transactions w = [tx 1; tx 2]
       ∧ tot_invalid (validation_analytics w) = 0).
Proof.
  split.
  { eexists _, _. split; [vm_compute; reflexivity|].
    split; [vm_compute; reflexivity|]. split; reflexivity. }
  split; [vm_compute; reflexivity|]. split; [vm_compute; reflexivity|].
  split; [vm_compute; reflexivity|]. split; [vm_compute; reflexivity|].
  eexists _, _. split; [vm_compute; reflexivity|]. split; reflexivity.
Qed.

(** C2, amended. Provided the total referenced value and the total
    produced value each fit a signed 64-bit integer: a transfer that
    [is_valid] accepts references at least the value it produces; a
    transfer that references strictly less than it produces is never
    accepted, and when rules 1-5 hold it is rejected with NotEnoughValue:
    counted, appended to [not_enough_value] and to no other list. *)
Theorem value_conservation dv tx_id inputs outputs :
  totals_fit dv inputs outputs →
  (∀ dv', is_valid dv tx_id inputs outputs = Ok (true, dv') →
     output_value outputs ≤ input_value dv inputs
     ∧ Forall (λ i, is_Some (referenced dv i)) inputs)
  ∧ (input_value dv inputs < output_value outputs →
     (∀ res, is_valid dv tx_id inputs outputs = Ok res → res.1 = false)
     ∧ (Forall (input_rules_hold dv) inputs → no_double_spend inputs →
        non_negative outputs →
        ∃ dv', is_valid dv tx_id inputs outputs = Ok (false, dv')
               ∧ not_enough_value dv' = not_enough_value dv ++ [tx_id]
               ∧ (∀ r, r ≠ NotEnoughValue → bucket r dv' = bucket r dv)
               ∧ n_invalid dv' = n_invalid dv + 1)).
Proof.
  intros [Hfit _].
  pose proof (enough_value_conservation dv inputs outputs Hfit) as Hrule.
  split.
  - intros dv' [-> Hfv]%is_valid_true_inv.
    apply first_violation_None_checks in Hfv as (Hall & _ & _ & Hc).
    split; [by apply Hrule|]. eapply Forall_impl; [exact Hall|].
    intros i (_ & Ho & _). by apply ownership_referenced.
  - intros Hlt. split.
    + intros res ->%is_valid_Ok.
      destruct (first_violation (checks dv inputs outputs)) eqn:Hfv; [done|].
      apply first_violation_None_checks in Hfv as (_ & _ & _ & Hc).
      apply Hrule in Hc. unfold conservation in Hc. lia.
    + intros Hall H4 H5. rewrite is_valid_inputs_pass by done.
      unfold tx_checks. cbn [first_violation].
      rewrite (bool_decide_eq_true_2 (no_double_spend inputs)) by done.
      rewrite (bool_decide_eq_true_2 (non_negative outputs)) by done.
      rewrite (bool_decide_eq_false_2 (enough_value dv inputs outputs))
        by (rewrite Hrule; unfold conservation; lia).
      eexists. split; [done|]. simpl. split; [done|]. split; [|done].
      by intros [].
Qed.

(** Outputs worth more than output 10. *)
Definition pay_too_much : list OutRow.t :=
  [OutRow.mk 11 2 8 6000000000].

Lemma value_conservation_witness :
  ∃ dv', is_valid after_coinbase 2 spend_10 pay_too_much = Ok (false, dv')
         ∧ not_enough_value dv' = not_enough_value after_coinbase ++ [2]
         ∧ (∀ r, r ≠ NotEnoughValue → bucket r dv' = bucket r after_coinbase)
         ∧ n_invalid dv' = n_invalid after_coinbase + 1.
Proof.
  apply (value_conservation after_coinbase 2 spend_10 pay_too_much).
  - by_compute.
  - vm_compute. reflexivity.
  - repeat constructor; vm_compute; try done; set_solver.
  - by_compute.
  - repeat constructor. vm_compute. discriminate.
Defined.

(** ** The pre-pass does not depend on the order of the rows *)

Section prepass_order.
Implicit Types (dv : DataValidator) (rows : list OutRow.t).

Lemma sum_list_Permutation (l k : list Z) : l ≡ₚ k → sum_list l = sum_list k.
Proof.
  unfold sum_list. induction 1; simpl; [done|lia|lia|congruence].
Qed.

Lemma groupby_Permutation rows rows' :
  rows ≡ₚ rows' → groupby_tx_value_sum rows = groupby_tx_value_sum rows'.
Proof.
  intros Hp. unfold groupby_tx_value_sum.
  assert (merge_sort Z.le (remove_dups (OutRow.tx_id <$> rows))
          = merge_sort Z.le (remove_dups (OutRow.tx_id <$> rows'))) as ->.
  { apply (Sorted_unique Z.le); [apply Sorted_merge_sort, _..|].
    rewrite !merge_sort_Permutation.
    apply NoDup_Permutation; [apply NoDup_remove_dups..|].
    intros k. rewrite !elem_of_remove_dups. by rewrite Hp. }
  apply list_fmap_ext. intros _ k _. do 2 f_equal.
  apply sum_list_Permutation. by rewrite Hp.
Qed.

Lemma prepass_rejected_Permutation dv dv' :
  in_df dv ≡ₚ in_df dv' → out_df dv ≡ₚ out_df dv' →
  prepass_rejected dv = prepass_rejected dv'.
Proof.
  intros Hin Hout. unfold prepass_rejected, coinbase_outputs.
  do 2 f_equal. apply groupby_Permutation.
  rewrite Hout. erewrite list_filter_iff; [done|].
  intros o. unfold coinbase_tx. by rewrite Hin.
Qed.
End prepass_order.

(** ** The pre-pass: claims *)

(** tx 1 has a first input signed by key 5 and a second input with
    sig_id 0; its outputs sum to 100. *)
Definition ledger_zero_signer_second : DataValidator :=
  init class_body [tx 1]
    [InRow.mk 1 1 5 3; InRow.mk 2 1 0 4]
    [OutRow.mk 10 1 7 100].

(** Transaction 1 has a first input with sig_id 0 and outputs of -2^63,
    -2^63 and 5_000_000_000: they sum to 5_000_000_000 - 2^64, and to
    5_000_000_000 as 64 bits hold the sum. *)
Definition ledger_wrapped_coinbase : DataValidator :=
  init class_body [tx 1] [InRow.mk 1 1 0 (-1)]
    [OutRow.mk 10 1 7 (- 2 ^ 63); OutRow.mk 11 1 7 (- 2 ^ 63);
     OutRow.mk 12 1 7 5000000000].

(** C3, as stated, fails.  The first input of transaction 1 of
    [ledger_zero_signer_second] has a non-zero sig_id, and the pre-pass
    rejects the transaction as an invalid coinbase.  The first input of
    transaction 1 of [ledger_wrapped_coinbase] has sig_id 0 and its
    outputs sum to less than the reward, and the pre-pass, which compares
    the 64-bit sum, keeps it and changes nothing. *)
Lemma prepass_counterexample :
  (InRow.sig_id <$> head (tx_inputs 1 ledger_zero_signer_second)) = Some 5
  ∧ invalid_coinbase (prepass ledger_zero_signer_second) = [1]
  ∧ n_invalid (prepass ledger_zero_signer_second) = 1
  ∧ tx_df (prepass ledger_zero_signer_second) = []
  ∧ in_df (prepass ledger_zero_signer_second) = []
  ∧ out_df (prepass ledger_zero_signer_second) = []
  ∧ (InRow.sig_id <$> head (tx_inputs 1 ledger_wrapped_coinbase)) = Some 0
  ∧ output_value (tx_outputs 1 ledger_wrapped_coinbase)
    = 5000000000 - 2 ^ 64
  ∧ prepass ledger_wrapped_coinbase = ledger_wrapped_coinbase.
Proof. vm_compute. done. Qed.

(** C3, amended. Before the main pass, every transaction that has an
    input with sig_id 0, in any position, and at least one output row, and
    whose outputs sum to a value that fits a signed 64-bit integer and is
    less than 5_000_000_000, is rejected: counted, appended once to
    [invalid_coinbase], and its row, its inputs and its outputs are
    deleted.  Nothing else is rejected or deleted by the pre-pass: a
    rejected transaction has an input with sig_id 0, an output row, and
    outputs whose sum, as 64 bits hold it, is less than the reward.  The
    transactions rejected are the same for every order of the rows of the
    relations. *)
Theorem prepass_rejects dv :
  (∀ t, (∃ i, i ∈ in_df dv ∧ InRow.tx_id i = t ∧ InRow.sig_id i = 0) →
        tx_outputs t dv ≠ [] →
        in_int64 (output_value (tx_outputs t dv)) →
        output_value (tx_outputs t dv) < MINING_REWARD →
        t ∈ invalid_coinbase (prepass dv)
        ∧ (t ∉ (TxRow.id <$> tx_df (prepass dv)))
        ∧ (t ∉ (InRow.tx_id <$> in_df (prepass dv)))
        ∧ (t ∉ (OutRow.tx_id <$> out_df (prepass dv))))
  ∧ (∀ t, t ∈ prepass_rejected dv →
          (∃ i, i ∈ in_df dv ∧ InRow.tx_id i = t ∧ InRow.sig_id i = 0)
          ∧ tx_outputs t dv ≠ []
          ∧ wrap64 (output_value (tx_outputs t dv)) < MINING_REWARD
          ∧ (in_int64 (output_value (tx_outputs t dv)) →
             output_value (tx_outputs t dv) < MINING_REWARD))
  ∧ invalid_coinbase (prepass dv) = invalid_coinbase dv ++ prepass_rejected dv
  ∧ NoDup (prepass_rejected dv)
  ∧ n_invalid (prepass dv)
    = n_invalid dv + Z.of_nat (length (prepass_rejected dv))
  ∧ tx_df (prepass dv)
    = filter (λ x, TxRow.id x ∉ prepass_rejected dv) (tx_df dv)
  ∧ in_df (prepass dv)
    = filter (λ i, InRow.tx_id i ∉ prepass_rejected dv) (in_df dv)
  ∧ out_df (prepass dv)
    = filter (λ o, OutRow.tx_id o ∉ prepass_rejected dv) (out_df dv)
  ∧ utxo (prepass dv) = utxo dv
  ∧ (∀ r, r ≠ InvalidCoinbase → bucket r (prepass dv) = bucket r dv)
  ∧ (∀ dv', in_df dv ≡ₚ in_df dv' → out_df dv ≡ₚ out_df dv' →
            prepass_rejected dv = prepass_rejected dv').
Proof.
  rewrite prepass_closed. unfold drop_coinbases. simpl.
  split; [|split].
  - intros t Hsig Hne Hfit Hlt.
    assert (t ∈ prepass_rejected dv) as Ht.
    { apply elem_of_prepass_rejected. split; [by apply elem_of_coinbase_tx|].
      split; [done|]. by rewrite wrap64_id. }
    split; [apply elem_of_app; by right|].
    repeat split; intros (x & -> & [Hx _]%list_elem_of_filter)%list_elem_of_fmap;
      done.
  - intros t (Hcb & Hne & Hlt)%elem_of_prepass_rejected.
    split; [by apply elem_of_coinbase_tx|]. split; [done|]. split; [done|].
    intros Hfit. by rewrite wrap64_id in Hlt.
  - split; [done|]. split; [apply NoDup_prepass_rejected|].
    repeat split; [by intros []|]. apply prepass_rejected_Permutation.
Qed.

(** Scenario A: a coinbase whose outputs sum to 4_000_000_000. *)
Definition ledger_small_coinbase : DataValidator :=
  init class_body [tx 1] [InRow.mk 1 1 0 (-1)] [OutRow.mk 10 1 7 4000000000].

Lemma prepass_rejects_witness :
  1 ∈ invalid_coinbase (prepass ledger_small_coinbase)
  ∧ (1 ∉ (TxRow.id <$> tx_df (prepass ledger_small_coinbase)))
  ∧ (1 ∉ (InRow.tx_id <$> in_df (prepass ledger_small_coinbase)))
  ∧ 1 ∉ (OutRow.tx_id <$> out_df (prepass ledger_small_coinbase)).
Proof.
  apply (prepass_rejects ledger_small_coinbase).
  - exists (InRow.mk 1 1 0 (-1)). split; [vm_compute; left|done].
  - vm_compute. done.
  - by_compute.
  - vm_compute. reflexivity.
Defined.

(** ** Coinbase transactions without outputs *)

(** tx 1 is a coinbase (first input: sig_id 0, out_id -1) that produces no
    output. *)
Definition ledger_empty_coinbase : DataValidator :=
  init class_body [tx 1] [InRow.mk 1 1 0 (-1)] [].

(** C4 at [ledger_empty_coinbase]: the outputs of transaction 1 sum to 0,
    less than the reward, and the pass keeps the transaction: the
    pre-pass groups the rows of [out_df], so a coinbase without an output
    row is in no group and is not compared with the reward. *)
Theorem empty_coinbase_accepted :
  ∃ dv w,
    validate_data ledger_empty_coinbase = Ok (dv, w)
    ∧ step_event 1 (prepass ledger_empty_coinbase) = Some (Coinbase 1 [])
    ∧ output_value (tx_outputs 1 ledger_empty_coinbase) < MINING_REWARD
    ∧ validated_transactions w = [tx 1]
    ∧ tot_invalid (validation_analytics w) = 0
    ∧ tx_ids (r_invalid_coinbase (validation_analytics w)) = [].
Proof. eexists _, _. vm_compute. done. Qed.

(** ** Rejections along a replay *)

Definition rejection_of (e : event) : list (Z * reason) :=
  match e with Rejected t r => [(t, r)] | _ => [] end.

(** The rejections of a history, with their reasons, in order. *)
Definition rejections (h : list event) : list (Z * reason) :=
  h ≫= rejection_of.

Section rejections.
Implicit Types (dv : DataValidator) (e : event) (h : list event).

Lemma rejected_txs_rejections h : rejected_txs h = (rejections h).*1.
Proof.
  unfold rejected_txs, rejections.
  induction h as [|e h IH]; [done|].
  rewrite !bind_cons, fmap_app, IH. by destruct e.
Qed.

Lemma rejected_for_rejections r h :
  rejected_for r h = (filter (λ p, p.2 = r) (rejections h)).*1.
Proof.
  unfold rejected_for, rejections.
  induction h as [|e h IH]; [done|].
  rewrite !bind_cons, filter_app, fmap_app, IH. f_equal.
  destruct e as [| |t r']; [done..|]. simpl.
  rewrite filter_cons. simpl. by destruct (decide (r' = r)).
Qed.

Lemma elem_of_rejected_txs h t :
  t ∈ rejected_txs h ↔ ∃ r, Rejected t r ∈ h.
Proof.
  unfold rejected_txs. rewrite list_elem_of_bind. split.
  - intros (e & Ht & He). destruct e as [| |t' r]; simpl in Ht;
      [by apply elem_of_nil in Ht..|].
    apply list_elem_of_singleton in Ht as ->. eauto.
  - intros [r Hr]. exists (Rejected t r). split; [simpl; left|done].
Qed.

Lemma NoDup_rejected_for r h : NoDup (rejected_txs h) → NoDup (rejected_for r h).
Proof.
  rewrite rejected_txs_rejections, rejected_for_rejections.
  intros Hnd. eapply sublist_NoDup; [exact Hnd|].
  apply fmap_sublist, sublist_filter.
Qed.

Lemma rejected_for_unique r1 r2 h t :
  NoDup (rejected_txs h) → t ∈ rejected_for r1 h → t ∈ rejected_for r2 h →
  r1 = r2.
Proof.
  rewrite rejected_txs_rejections, !rejected_for_rejections.
  intros Hnd ([t1 r1'] & -> & [Hr1 H1]%list_elem_of_filter)%list_elem_of_fmap
             ([t2 r2'] & Heq & [Hr2 H2]%list_elem_of_filter)%list_elem_of_fmap.
  simpl in *. subst.
  assert ((t2, r1) = (t2, r2)) as [= ->]; [|done].
  by apply (NoDup_fmap_eq fst (rejections h)).
Qed.

Lemma rejected_for_txs r h t : t ∈ rejected_for r h → t ∈ rejected_txs h.
Proof.
  rewrite rejected_txs_rejections, rejected_for_rejections.
  intros (p & -> & [_ Hp]%list_elem_of_filter)%list_elem_of_fmap.
  by apply list_elem_of_fmap_2.
Qed.

Lemma rejected_txs_for h t : t ∈ rejected_txs h → ∃ r, t ∈ rejected_for r h.
Proof.
  rewrite rejected_txs_rejections.
  intros ([t' r] & -> & Hp)%list_elem_of_fmap. exists r.
  rewrite rejected_for_rejections. apply list_elem_of_fmap.
  exists (t', r). split; [done|]. by apply list_elem_of_filter.
Qed.

(** A transaction is rejected at most once, and never after the pre-pass
    rejected it: once rejected it has no input row left, and a
    transaction without input rows cannot be processed. *)
Lemma replay_rejected_NoDup dv0 (bad : list Z) pre dv :
  NoDup bad → (∀ i, i ∈ in_df dv0 → InRow.tx_id i ∉ bad) →
  replay pre dv0 = Ok dv →
  NoDup (bad ++ rejected_txs (history pre dv0)).
Proof.
  intros Hbad Hin. revert pre dv.
  apply (replay_history_ind (λ _ h _, NoDup (bad ++ rejected_txs h))).
  - unfold rejected_txs. simpl. by rewrite app_nil_r.
  - intros pre h t e dv Hpre -> IH He Ht _ _ _.
    rewrite rejected_txs_snoc. destruct e as [| |t' r]; simpl;
      rewrite ?app_nil_r; [done..|].
    simpl in Ht. subst t'. rewrite app_assoc.
    apply NoDup_app. split; [done|]. split; [|apply NoDup_singleton].
    intros x Hx ->%list_elem_of_singleton.
    destruct (step_event_input _ _ _ He) as (i & Hi & Hit).
    destruct (replay_frames _ _ _ Hpre) as (_ & _ & Hindf & _).
    rewrite Hindf in Hi. apply list_elem_of_filter in Hi as [Hnr Hi0].
    apply elem_of_app in Hx as [Hx|Hx].
    + apply (Hin i Hi0). by rewrite Hit.
    + apply Hnr. by rewrite Hit.
Qed.

(** In a replay over distinct ids, an accepted transaction is not among
    the rejected ones. *)
Lemma accepted_not_rejected h e :
  NoDup (event_tx <$> h) → e ∈ h → accepted e → event_tx e ∉ rejected_txs h.
Proof.
  intros Hnd He Hacc [r Hr]%elem_of_rejected_txs.
  assert (e = Rejected (event_tx e) r) as Heq
    by (by apply (NoDup_fmap_eq event_tx h)).
  rewrite Heq in Hacc. done.
Qed.
End rejections.

(** ** The whole pass *)

(** The object when the main loop starts, and the order of the loop. *)
Definition start (txs : list TxRow.t) (ins : list InRow.t)
    (outs : list OutRow.t) : DataValidator :=
  prepass (init class_body txs ins outs).

Definition ledger_order (txs : list TxRow.t) (ins : list InRow.t)
    (outs : list OutRow.t) : list Z :=
  TxRow.id <$> tx_df (start txs ins outs).

(** The list of a reason in the written report. *)
Definition report_bucket (r : reason) (rep : Report) : Category :=
  match r with
  | NotInUtxo => r_not_in_utxo rep
  | NegDestPk => r_neg_dest_pk rep
  | InvalidPk => r_invalid_pk rep
  | NegOutput => r_neg_output rep
  | NotEnoughValue => r_not_enough_value rep
  | InvalidCoinbase => r_invalid_coinbase rep
  end.

Section backed.
Context (dv0 : DataValidator) (Hempty : utxo dv0 = ∅).

(** Over distinct ids, every unspent id is the id of a row that is still
    in [out_df] and belongs to an accepted transaction. *)
Lemma replay_backed pre dv :
  NoDup pre → replay pre dv0 = Ok dv →
  ∀ x, x ∈ utxo dv →
  ∃ e o, e ∈ history pre dv0 ∧ accepted e ∧ x ∈ produced e
         ∧ o ∈ out_df dv ∧ OutRow.id o = x ∧ OutRow.tx_id o = event_tx e.
Proof using Hempty.
  intros Hnd Hpre x Hx.
  apply (replay_utxo_iff dv0 Hempty pre dv Hpre) in Hx
    as (h1 & e & h2 & Hh & Hacc & Hxe & _).
  assert (e ∈ history pre dv0) as He
    by (rewrite Hh; apply elem_of_app; right; left).
  destruct (replay_produced_rows dv0 pre dv Hpre e x He Hacc Hxe)
    as (o & Ho & Hid & Htx).
  exists e, o. repeat split; [done..| |done|done].
  destruct (replay_frames _ _ _ Hpre) as (Hev & _ & _ & -> & _).
  apply list_elem_of_filter. split; [|done]. rewrite Htx.
  apply accepted_not_rejected; [|done..]. by rewrite Hev.
Qed.
End backed.

Section whole_pass.
Context (txs : list TxRow.t) (ins : list InRow.t) (outs : list OutRow.t).

Lemma start_utxo : utxo (start txs ins outs) = ∅.
Proof. unfold start. by rewrite prepass_closed. Qed.

Lemma start_out_df o : o ∈ out_df (start txs ins outs) → o ∈ outs.
Proof.
  unfold start. rewrite prepass_closed. simpl.
  by intros [_ ?]%list_elem_of_filter.
Qed.

Lemma start_out_df_sublist : out_df (start txs ins outs) `sublist_of` outs.
Proof. unfold start. rewrite prepass_closed. apply sublist_filter. Qed.

Lemma ledger_order_NoDup :
  NoDup (TxRow.id <$> txs) → NoDup (ledger_order txs ins outs).
Proof.
  intros Hnd. unfold ledger_order, start. rewrite prepass_closed. simpl.
  eapply sublist_NoDup; [exact Hnd|]. apply fmap_sublist, sublist_filter.
Qed.

Lemma validate_data_inv dv w :
  validate_data (init class_body txs ins outs) = Ok (dv, w) →
  replay (ledger_order txs ins outs) (start txs ins outs) = Ok dv
  ∧ w = write_out dv.
Proof.
  unfold validate_data, ledger_order. fold (start txs ins outs).
  destruct (replay _ _) as [dv2|]; [|done]. simpl. by intros [= -> ->].
Qed.

(** The written relations and lists, from the rejections of the pre-pass
    and of the main loop. *)
Lemma validate_data_closed dv w :
  validate_data (init class_body txs ins outs) = Ok (dv, w) →
  let bad := prepass_rejected (init class_body txs ins outs) in
  let h := history (ledger_order txs ins outs) (start txs ins outs) in
  w = write_out dv
  ∧ event_tx <$> h = ledger_order txs ins outs
  ∧ NoDup (bad ++ rejected_txs h)
  ∧ tx_df dv = filter (λ x, TxRow.id x ∉ bad ++ rejected_txs h) txs
  ∧ in_df dv = filter (λ i, InRow.tx_id i ∉ bad ++ rejected_txs h) ins
  ∧ out_df dv = filter (λ o, OutRow.tx_id o ∉ bad ++ rejected_txs h) outs
  ∧ (∀ r, bucket r dv
          = if decide (r = InvalidCoinbase) then bad else rejected_for r h)
  ∧ n_invalid dv = Z.of_nat (length (bad ++ rejected_txs h)).
Proof.
  intros [Hrep ->]%validate_data_inv. cbv zeta.
  destruct (replay_frames _ _ _ Hrep)
    as (Hev & Htx & Hin & Hout & Hb & Hn & Hic).
  split; [done|]. split; [done|]. split.
  { eapply replay_rejected_NoDup; [apply NoDup_prepass_rejected| |exact Hrep].
    intros i. unfold start. rewrite prepass_closed. simpl.
    by intros [? _]%list_elem_of_filter. }
  rewrite Htx, Hin, Hout, Hn. unfold start. rewrite prepass_closed. simpl.
  rewrite !filter_not_in_app, length_app.
  split; [done|]. split; [done|]. split; [done|]. split; [|lia].
  intros r. fold (start txs ins outs). rewrite Hb.
  destruct (decide (r = InvalidCoinbase)) as [->|Hr].
  - rewrite Hic, app_nil_r. unfold start. by rewrite prepass_closed.
  - unfold start. rewrite prepass_closed. by destruct r.
Qed.
End whole_pass.

Lemma report_bucket_write_out r dv :
  tx_ids (report_bucket r (validation_analytics (write_out dv))) = bucket r dv.
Proof. by destruct r. Qed.

Lemma filter_absent {A} (f : A → Z) (l : list A) (k : Z) :
  k ∉ (f <$> l) → filter (λ o', f o' = k) l = [].
Proof.
  induction l as [|a l IH]; [done|]. rewrite fmap_cons, not_elem_of_cons.
  intros [Hne Hk]. rewrite filter_cons_False by done. by apply IH.
Qed.

Lemma filter_unique {A} (f : A → Z) (l : list A) (o : A) :
  NoDup (f <$> l) → o ∈ l → filter (λ o', f o' = f o) l = [o].
Proof.
  induction l as [|a l IH]; [by intros _ ?%elem_of_nil|].
  rewrite fmap_cons, NoDup_cons. intros [Ha Hnd] [->|Ho]%elem_of_cons.
  - rewrite filter_cons_True by done. f_equal. by apply filter_absent.
  - rewrite filter_cons_False; [by apply IH|].
    intros Heq. apply Ha. rewrite Heq. by apply list_elem_of_fmap_2.
Qed.

(** ** Totality of the output lookups *)

(** tx 1: coinbase producing output 10; tx 2: key 7 spends output 10 into
    output 11; tx 3: coinbase producing a second output row with id 10. *)
Definition txs_reused : list TxRow.t := [tx 1; tx 2; tx 3].
Definition ins_reused : list InRow.t :=
  [InRow.mk 1 1 0 (-1); InRow.mk 2 2 7 10; InRow.mk 3 3 0 (-1)].
Definition outs_reused : list OutRow.t :=
  [OutRow.mk 10 1 7 5000000000; OutRow.mk 11 2 8 5000000000;
   OutRow.mk 10 3 9 5000000000].

(** C10, as stated, fails: the transaction ids of [ledger_reused] are
    distinct; after transaction 1 the input of transaction 2 passes the
    membership rule, and the Outputs relation holds two rows with the id
    it references: the referenced row is not unique.  The lookups read
    the first of them. *)
Lemma utxo_lookups_total_counterexample :
  NoDup (TxRow.id <$> txs_reused)
  ∧ ledger_order txs_reused ins_reused outs_reused = [1] ++ [2; 3]
  ∧ ∃ dv,
      replay [1] (start txs_reused ins_reused outs_reused) = Ok dv
      ∧ membership dv (InRow.mk 2 2 7 10)
      ∧ filter (λ o, OutRow.id o = 10) (out_df dv)
        = [OutRow.mk 10 1 7 5000000000; OutRow.mk 10 3 9 5000000000]
      ∧ iloc0 (OutRow.pk_id <$> filter (λ o, OutRow.id o = 10) (out_df dv))
        = Ok 7.
Proof.
  split; [by_compute|]. split; [vm_compute; reflexivity|].
  eexists. split; [vm_compute; reflexivity|].
  split; [by_compute|]. split; vm_compute; reflexivity.
Qed.

(** C10, amended. At every point of the replay of a ledger whose
    transaction ids are distinct, every id of the UTXO set is the id of
    a row of [out_df]; so for an input that passes the membership rule
    the lookups of the referenced pk_id and value return the fields of
    the first row with that id, which is the only one when the output
    ids are distinct, and [is_valid] raises no exception. *)
Theorem utxo_lookups_total txs ins outs pre post dv :
  NoDup (TxRow.id <$> txs) →
  ledger_order txs ins outs = pre ++ post →
  replay pre (start txs ins outs) = Ok dv →
  utxo_backed dv
  ∧ (∀ i, membership dv i →
       ∃ o, o ∈ out_df dv ∧ OutRow.id o = InRow.out_id i
            ∧ iloc0 (OutRow.pk_id <$>
                       filter (λ o', OutRow.id o' = InRow.out_id i) (out_df dv))
              = Ok (OutRow.pk_id o)
            ∧ iloc0 (OutRow.value <$>
                       filter (λ o', OutRow.id o' = InRow.out_id i) (out_df dv))
              = Ok (OutRow.value o)
            ∧ (NoDup (OutRow.id <$> outs) →
               filter (λ o', OutRow.id o' = InRow.out_id i) (out_df dv) = [o]))
  ∧ (∀ t inputs outputs, ∃ res, is_valid dv t inputs outputs = Ok res).
Proof.
  intros Hnd Hord Hrep.
  assert (Hb : utxo_backed dv).
  { intros x Hx.
    destruct (replay_backed _ (start_utxo txs ins outs) pre dv) with (x := x)
      as (e & o & _ & _ & _ & Ho & Hid & _); [|done|done|by eauto].
    apply ledger_order_NoDup with (ins := ins) (outs := outs) in Hnd.
    rewrite Hord in Hnd. by apply NoDup_app in Hnd as [? _]. }
  split; [done|]. split.
  - intros i Hm. destruct (referenced_member dv Hb i Hm) as (o & Hr & Ho & Hid).
    exists o. rewrite !iloc0_fmap_head. fold (referenced dv i). rewrite Hr.
    repeat split; [done..|]. intros Hids. rewrite <- Hid.
    apply filter_unique; [|done].
    eapply sublist_NoDup; [exact Hids|]. apply fmap_sublist.
    destruct (replay_frames _ _ _ Hrep) as (_ & _ & _ & -> & _).
    etrans; [apply sublist_filter|apply start_out_df_sublist].
  - intros t inputs outputs. eexists. by apply is_valid_first_violation.
Qed.

Definition txs_ok : list TxRow.t := [tx 1; tx 2].
Definition ins_ok : list InRow.t := [InRow.mk 1 1 0 (-1); InRow.mk 2 2 7 10].
Definition outs_ok : list OutRow.t :=
  [OutRow.mk 10 1 7 5000000000; OutRow.mk 11 2 8 3000000000;
   OutRow.mk 12 2 9 1000000000].

Lemma utxo_lookups_total_witness :
  ∃ res, is_valid after_coinbase 2 spend_10 pay_11_12 = Ok res.
Proof.
  apply (utxo_lookups_total txs_ok ins_ok outs_ok [1] [2] after_coinbase).
  - by_compute.
  - vm_compute. reflexivity.
  - vm_compute. reflexivity.
Defined.

(** ** The UTXO invariant and conservation *)




(** ** Rejection exclusivity and excision *)

(** Every row of [ins] and [outs] refers to a transaction of [txs]. *)
Definition references_resolve (txs : list TxRow.t) (ins : list InRow.t)
    (outs : list OutRow.t) : Prop :=
  (∀ i, i ∈ ins → InRow.tx_id i ∈ TxRow.id <$> txs)
  ∧ (∀ o, o ∈ outs → OutRow.tx_id o ∈ TxRow.id <$> txs).

(** tx 1 is a coinbase; the relations also hold an Input row and an
    Output row of a transaction 5 that has no Transaction row. *)
Definition ledger_orphans : DataValidator :=
  init class_body [tx 1]
    [InRow.mk 1 1 0 (-1); InRow.mk 2 5 7 10]
    [OutRow.mk 10 1 7 5000000000; OutRow.mk 11 5 8 1].

(** C8, as stated, fails: the pass completes on [ledger_orphans] and the
    written relations hold an Input row and an Output row whose tx_id
    refers to transaction 5, which is absent from the ledger, and which
    no list reports. *)
Lemma rejection_exclusive_and_excised_counterexample :
  ∃ dv w,
    validate_data ledger_orphans = Ok (dv, w)
    ∧ validated_transactions w = [tx 1]
    ∧ InRow.mk 2 5 7 10 ∈ validated_inputs w
    ∧ OutRow.mk 11 5 8 1 ∈ validated_outputs w
    ∧ tot_invalid (validation_analytics w) = 0.
Proof.
  eexists _, _. split; [vm_compute; reflexivity|]. simpl.
  split; [reflexivity|]. split; [right; left|]. split; [right; left|].
  reflexivity.
Qed.

(** C8, amended. When the pass completes: every list of the report is
    free of duplicates and no transaction id is in two lists; a
    transaction that is still in the written ledger is in no list, and a
    transaction of the input that is not in the written ledger is in
    one; the written
    relations hold no Transaction, Input or Output row of a listed
    transaction; the counter is the total length of the lists; and when
    every Input and Output row of the input refers to a transaction of
    the input, every written Input and Output row refers to a written
    transaction.  One step of the main loop either leaves the relations
    and the lists as they are or appends the transaction to exactly one
    list and deletes its rows from the three relations together. *)
Theorem rejection_exclusive_and_excised txs ins outs dv w :
  validate_data (init class_body txs ins outs) = Ok (dv, w) →
  let listed r := tx_ids (report_bucket r (validation_analytics w)) in
  (∀ r, NoDup (listed r))
  ∧ (∀ r1 r2 t, t ∈ listed r1 → t ∈ listed r2 → r1 = r2)
  ∧ (∀ t, t ∈ TxRow.id <$> validated_transactions w → ∀ r, t ∉ listed r)
  ∧ (∀ t, t ∈ TxRow.id <$> txs →
          t ∈ TxRow.id <$> validated_transactions w ∨ ∃ r, t ∈ listed r)
  ∧ (∀ r t, t ∈ listed r →
            (t ∉ (TxRow.id <$> validated_transactions w))
            ∧ (t ∉ (InRow.tx_id <$> validated_inputs w))
            ∧ (t ∉ (OutRow.tx_id <$> validated_outputs w)))
  ∧ tot_invalid (validation_analytics w)
    = Z.of_nat (length (listed NotInUtxo) + length (listed NegDestPk)
                + length (listed InvalidPk) + length (listed NegOutput)
                + length (listed NotEnoughValue)
                + length (listed InvalidCoinbase))
  ∧ (references_resolve txs ins outs →
     references_resolve (validated_transactions w) (validated_inputs w)
       (validated_outputs w))
  ∧ (∀ t d d', validate_tx t d = Ok d' →
       (tx_df d' = tx_df d ∧ in_df d' = in_df d ∧ out_df d' = out_df d
        ∧ n_invalid d' = n_invalid d ∧ ∀ r, bucket r d' = bucket r d)
       ∨ (∃ r, bucket r d' = bucket r d ++ [t]
               ∧ (∀ r', r' ≠ r → bucket r' d' = bucket r' d)
               ∧ n_invalid d' = n_invalid d + 1
               ∧ tx_df d' = filter (λ x, TxRow.id x ≠ t) (tx_df d)
               ∧ in_df d' = filter (λ i, InRow.tx_id i ≠ t) (in_df d)
               ∧ out_df d' = filter (λ o, OutRow.tx_id o ≠ t) (out_df d))).
Proof.
  intros Hv. cbv zeta.
  destruct (validate_data_closed _ _ _ _ _ Hv)
    as (-> & Hev & Hnd & Htx & Hin & Hout & Hb & Hn).
  set (bad := prepass_rejected (init class_body txs ins outs)) in *.
  set (h := history (ledger_order txs ins outs) (start txs ins outs)) in *.
  apply NoDup_app in Hnd as (Hbad & Hdisj & Hrej).
  assert (Hlisted : ∀ r t, t ∈ bucket r dv → t ∈ bad ++ rejected_txs h).
  { intros r t. rewrite Hb, elem_of_app.
    destruct (decide _); [by left|]. right. by eapply rejected_for_txs. }
  assert (Hgone : ∀ {A} (f : A → Z) (l : list A) t,
            t ∈ bad ++ rejected_txs h →
            t ∉ (f <$> filter (λ x, f x ∉ bad ++ rejected_txs h) l)).
  { intros A f l t Ht (x & -> & [Hx _]%list_elem_of_filter)%list_elem_of_fmap.
    done. }
  setoid_rewrite report_bucket_write_out. simpl.
  split; [|split; [|split; [|split; [|split; [|split; [|split]]]]]].
  - intros r. rewrite Hb. destruct (decide _); [done|].
    by apply NoDup_rejected_for.
  - intros r1 r2 t. rewrite !Hb.
    destruct (decide (r1 = _)) as [->|H1], (decide (r2 = _)) as [->|H2];
      [done| | |].
    + intros Ht1 Ht2%rejected_for_txs. by destruct (Hdisj t).
    + intros Ht1%rejected_for_txs Ht2. by destruct (Hdisj t).
    + by apply rejected_for_unique.
  - intros t Ht r Hr%Hlisted. rewrite Htx in Ht. by eapply Hgone.
  - intros t (x & -> & Hx)%list_elem_of_fmap.
    destruct (decide (TxRow.id x ∈ bad ++ rejected_txs h)) as [Hr|Hr].
    + right. apply elem_of_app in Hr as [Hr|Hr].
      * exists InvalidCoinbase. by rewrite Hb, decide_True.
      * apply rejected_txs_for in Hr as [r Hr]. exists r. rewrite Hb.
        destruct (decide (r = InvalidCoinbase)) as [->|]; [|done].
        destruct (replay_frames _ _ _ (proj1 (validate_data_inv _ _ _ _ _ Hv)))
          as (_ & _ & _ & _ & _ & _ & Hic).
        fold h in Hic. rewrite Hic in Hr. by apply elem_of_nil in Hr.
    + left. rewrite Htx. apply list_elem_of_fmap_2.
      by apply list_elem_of_filter.
  - intros r t Ht%Hlisted. rewrite Htx, Hin, Hout.
    split; [|split]; by apply Hgone.
  - pose proof (Hb NotInUtxo) as H1. pose proof (Hb NegDestPk) as H2.
    pose proof (Hb InvalidPk) as H3. pose proof (Hb NegOutput) as H4.
    pose proof (Hb NotEnoughValue) as H5. pose proof (Hb InvalidCoinbase) as H6.
    simpl in H1, H2, H3, H4, H5, H6.
    rewrite Hn, H1, H2, H3, H4, H5, H6. rewrite length_app. f_equal.
    destruct (replay_frames _ _ _ (proj1 (validate_data_inv _ _ _ _ _ Hv)))
      as (_ & _ & _ & _ & _ & _ & Hic).
    fold h in Hic. revert Hic.
    rewrite rejected_txs_rejections, !rejected_for_rejections, !length_fmap.
    intros Hic%fmap_nil_inv. revert Hic. clear.
    induction (rejections h) as [|[t r] l IH]; [by rewrite Nat.add_0_r|].
    rewrite !filter_cons. simpl. destruct r; simpl;
      try done; intros Hl%IH; lia.
  - intros [Hri Hro]. split.
    + intros i. rewrite Hin, Htx. intros [Hi Hiin]%list_elem_of_filter.
      apply Hri, list_elem_of_fmap in Hiin as (x & Hx & Hxin).
      apply list_elem_of_fmap. exists x. split; [done|].
      apply list_elem_of_filter. by rewrite <- Hx.
    + intros o. rewrite Hout, Htx. intros [Ho Hoin]%list_elem_of_filter.
      apply Hro, list_elem_of_fmap in Hoin as (x & Hx & Hxin).
      apply list_elem_of_fmap. exists x. split; [done|].
      apply list_elem_of_filter. by rewrite <- Hx.
  - intros t d d' (e & _ & -> & Ht & _)%validate_tx_Ok.
    destruct e as [t' p|t' s p|t' r]; simpl in Ht; subst t';
      [left; repeat split; by intros []..|].
    right. exists r. rewrite bucket_apply_event, decide_True by done.
    split; [done|]. split; [|done].
    intros r' Hr'. rewrite bucket_apply_event. by rewrite decide_False.
Qed.

Lemma rejection_exclusive_and_excised_witness :
  ∃ dv w, validate_data ledger_overspend_negative = Ok (dv, w)
    ∧ ∀ r, NoDup (tx_ids (report_bucket r (validation_analytics w))).
Proof.
  destruct (validate_data ledger_overspend_negative) as [[dv w]|] eqn:Hv;
    [|by vm_compute in Hv].
  exists dv, w. split; [done|].
  apply (rejection_exclusive_and_excised
           [tx 1; tx 2] [InRow.mk 1 1 0 (-1); InRow.mk 2 2 7 10]
           [OutRow.mk 10 1 7 5000000000; OutRow.mk 11 2 8 6000000000;
            OutRow.mk 12 2 9 (-5)] dv w).
  exact Hv.
Defined.

(** ** Two runs in one process *)

(** tx 1 spends output 10, which tx 2, a coinbase, produces only later. *)
Definition txs_forward : list TxRow.t := [tx 1; tx 2].
Definition ins_forward : list InRow.t :=
  [InRow.mk 1 1 7 10; InRow.mk 2 2 0 (-1)].
Definition outs_forward : list OutRow.t :=
  [OutRow.mk 11 1 8 1000; OutRow.mk 10 2 7 5000000000].

(** C9 at two runs over the relations above.  The first instance rejects
    tx 1 (output 10 is not yet unspent) and leaves id 10 in the set and
    id 1 in the list of the class; a second instance over the same
    relations starts from them, accepts tx 1, and writes other relations,
    another UTXO set and a report whose counter is 0 while its
    [not_in_utxo] list still holds tx 1. *)
Theorem second_run_differs :
  ∃ dv1 w1 dv2 w2,
    validate_data (init class_body txs_forward ins_forward outs_forward)
      = Ok (dv1, w1)
    ∧ validate_data (init (class_of dv1) txs_forward ins_forward outs_forward)
      = Ok (dv2, w2)
    ∧ validated_transactions w1 = [tx 2]
    ∧ validated_transactions w2 = [tx 1; tx 2]
    ∧ elements (utxo_ids w1) = [10]
    ∧ elements (utxo_ids w2) ≡ₚ [10; 11]
    ∧ tot_invalid (validation_analytics w1) = 1
    ∧ tx_ids (r_not_in_utxo (validation_analytics w1)) = [1]
    ∧ tot_invalid (validation_analytics w2) = 0
    ∧ tx_ids (r_not_in_utxo (validation_analytics w2)) = [1].
Proof.
  eexists _, _, _, _.
  split; [vm_compute; reflexivity|]. split; [vm_compute; reflexivity|].
  repeat split; try reflexivity.
  vm_compute. apply Permutation_swap || reflexivity.
Qed.

(** * Further properties of the validator *)

(** ** When the pass completes and when it raises *)

Section completion.
Implicit Types (dv : DataValidator) (t : Z).

Lemma validate_tx_empty_inputs t dv :
  tx_inputs t dv = [] → validate_tx t dv = Raise IndexError.
Proof.
  unfold validate_tx. fold (tx_inputs t dv). by intros ->.
Qed.

Lemma validate_tx_in_df t dv dv' i :
  validate_tx t dv = Ok dv' → i ∈ in_df dv' → i ∈ in_df dv.
Proof.
  intros (e & _ & -> & _)%validate_tx_Ok. rewrite in_df_apply_event.
  destruct e; [done..|]. by intros [_ ?]%list_elem_of_filter.
Qed.

Lemma tx_inputs_empty_iff t dv :
  tx_inputs t dv = [] ↔ ∀ i, i ∈ in_df dv → InRow.tx_id i ≠ t.
Proof.
  unfold tx_inputs. split.
  - intros Hnil i Hi Ht.
    assert (i ∈ filter (λ i, InRow.tx_id i = t) (in_df dv)) as Hin
      by (by apply list_elem_of_filter).
    rewrite Hnil in Hin. by apply elem_of_nil in Hin.
  - intros Hall. destruct (filter _ _) as [|i l] eqn:Hf; [done|].
    assert (i ∈ filter (λ i, InRow.tx_id i = t) (in_df dv)) as Hin
      by (rewrite Hf; left).
    apply list_elem_of_filter in Hin as [Ht Hi]. by destruct (Hall i Hi).
Qed.

Lemma replay_missing_inputs tx_ids t dv :
  t ∈ tx_ids → tx_inputs t dv = [] → replay tx_ids dv = Raise IndexError.
Proof.
  revert dv. induction tx_ids as [|u rest IH]; intros dv;
    [by intros ?%elem_of_nil|].
  intros Ht Hnil. cbn [replay].
  destruct (validate_tx u dv) as [dv'|e] eqn:Hv; cbn [mbind result_bind].
  - apply elem_of_cons in Ht as [->|Ht].
    { by rewrite validate_tx_empty_inputs in Hv. }
    apply IH; [done|]. apply tx_inputs_empty_iff. intros i Hi.
    apply (proj1 (tx_inputs_empty_iff t dv) Hnil).
    by eapply validate_tx_in_df.
  - destruct e; [done|]. by apply validate_tx_no_KeyError in Hv.
Qed.
End completion.

(** X1. A transaction without an input row makes the pass fail: when a
    transaction that the pre-pass keeps has no row in [in_df],
    [validate_data] raises [IndexError] (line 178 indexes the first input
    of an empty selection), whatever the other transactions are. *)
Theorem validate_data_missing_inputs dv t :
  t ∈ TxRow.id <$> tx_df (prepass dv) →
  (∀ i, i ∈ in_df dv → InRow.tx_id i ≠ t) →
  validate_data dv = Raise IndexError.
Proof.
  intros Ht Hnone. unfold validate_data.
  rewrite (replay_missing_inputs _ t); [done|done|].
  apply tx_inputs_empty_iff. intros i. rewrite prepass_closed. simpl.
  intros [_ Hi]%list_elem_of_filter. by apply Hnone.
Qed.

(** tx 2 has no input row. *)
Definition ledger_no_inputs : DataValidator :=
  init class_body [tx 1; tx 2] [InRow.mk 1 1 0 (-1)]
    [OutRow.mk 10 1 7 5000000000; OutRow.mk 11 2 8 1].

Lemma validate_data_missing_inputs_witness :
  validate_data ledger_no_inputs = Raise IndexError.
Proof.
  apply (validate_data_missing_inputs ledger_no_inputs 2).
  - vm_compute. right. left.
  - intros i Hi. apply list_elem_of_singleton in Hi as ->. done.
Defined.

Lemma validate_data_total txs ins outs :
  NoDup (TxRow.id <$> txs) →
  (∀ t, t ∈ TxRow.id <$> txs → ∃ i, i ∈ ins ∧ InRow.tx_id i = t) →
  ∃ dv w, validate_data (init class_body txs ins outs) = Ok (dv, w).
Proof.
  intros Hnd Hins.
  pose proof (ledger_order_NoDup txs ins outs Hnd) as Hord.
  assert (Hpre : ∀ pre post, ledger_order txs ins outs = pre ++ post →
                 ∃ dv, replay pre (start txs ins outs) = Ok dv).
  { intros pre. induction pre as [|t pre IH] using rev_ind; intros post Heq.
    { by eexists. }
    rewrite <- app_assoc in Heq. destruct (IH _ Heq) as [dv Hdv].
    rewrite Heq in Hord. apply NoDup_app in Hord as (Hndpre & Hfresh & _).
    rewrite (replay_snoc _ _ _ _ Hdv). apply validate_tx_total.
    - intros x Hx.
      destruct (replay_backed _ (start_utxo txs ins outs) pre dv Hndpre Hdv x Hx)
        as (e & o & _ & _ & _ & Ho & Hid & _). eauto.
    - assert (t ∈ ledger_order txs ins outs) as Ht
        by (rewrite Heq; apply elem_of_app; right; left).
      unfold ledger_order, start in Ht. rewrite prepass_closed in Ht.
      simpl in Ht.
      apply list_elem_of_fmap in Ht as (x & -> & [Hbad Hx]%list_elem_of_filter).
      destruct (Hins (TxRow.id x)) as (i & Hi & Hit);
        [by apply list_elem_of_fmap_2|].
      intros Hnil. apply (proj1 (tx_inputs_empty_iff _ _) Hnil i); [|done].
      destruct (replay_frames _ _ _ Hdv) as (Hev & _ & -> & _).
      apply list_elem_of_filter. split.
      + rewrite Hit. intros [r Hr]%elem_of_rejected_txs.
        apply (Hfresh (TxRow.id x)); [|left].
        rewrite <- Hev. by apply (list_elem_of_fmap_2 event_tx _ _ Hr).
      + unfold start. rewrite prepass_closed. simpl.
        apply list_elem_of_filter. by rewrite Hit. }
  destruct (Hpre (ledger_order txs ins outs) []) as [dv Hdv];
    [by rewrite app_nil_r|].
  exists dv, (write_out dv). unfold validate_data.
  fold (start txs ins outs). fold (ledger_order txs ins outs).
  by rewrite Hdv.
Qed.

(** X2. The pass completes on a well-formed ledger: with distinct
    transaction ids, when every transaction has at least one input row,
    [validate_data] on a fresh class returns without any exception. *)
Theorem validate_data_completes txs ins outs :
  NoDup (TxRow.id <$> txs) →
  (∀ t, t ∈ TxRow.id <$> txs → ∃ i, i ∈ ins ∧ InRow.tx_id i = t) →
  ∃ dv w, validate_data (init class_body txs ins outs) = Ok (dv, w).
Proof. apply validate_data_total. Qed.

Lemma validate_data_completes_witness :
  ∃ dv w, validate_data ledger_ok = Ok (dv, w).
Proof.
  apply (validate_data_completes txs_ok ins_ok outs_ok).
  - by_compute.
  - intros t Ht. apply list_elem_of_fmap in Ht as (x & -> & Hx).
    apply elem_of_cons in Hx as [->|Hx].
    { exists (InRow.mk 1 1 0 (-1)). split; [left|done]. }
    apply list_elem_of_singleton in Hx as ->.
    exists (InRow.mk 2 2 7 10). split; [right; left|done].
Defined.

(** ** The reward floor *)

Section floor.
Implicit Types (dv : DataValidator) (t : Z).

Lemma filter_tx_kept {A} (f : A → Z) (bad : list Z) (l : list A) t :
  t ∉ bad →
  filter (λ x, f x = t) (filter (λ x, f x ∉ bad) l) = filter (λ x, f x = t) l.
Proof.
  intros Ht. rewrite list_filter_filter. apply list_filter_iff.
  intros x. split; [by intros [? _]|]. intros Hx. split; [done|].
  by rewrite Hx.
Qed.

(** After the pre-pass no group below the reward is left. *)
Lemma prepass_rejected_prepass dv : prepass_rejected (prepass dv) = [].
Proof.
  apply elem_of_nil_inv. intros k (Hcb & Hne & Hlt)%elem_of_prepass_rejected.
  apply elem_of_coinbase_tx in Hcb as (i & Hi & Hik & Hsig).
  revert Hi Hne Hlt. unfold tx_outputs. rewrite prepass_closed. simpl.
  intros [Hbad Hi]%list_elem_of_filter. rewrite Hik in Hbad.
  rewrite (filter_tx_kept OutRow.tx_id) by done. intros Hne Hlt.
  apply Hbad, elem_of_prepass_rejected. split; [|done].
  apply elem_of_coinbase_tx. eauto.
Qed.
End floor.

(** X3. The pre-pass is idempotent: run on its own result it rejects
    nothing and changes nothing, because no transaction with a zero
    signer and an output row is left whose outputs sum, as 64 bits hold
    the sum, to less than the reward; when the sum fits a signed 64-bit
    integer the outputs sum to at least the reward. *)
Theorem prepass_idempotent dv :
  prepass (prepass dv) = prepass dv
  ∧ ∀ t, (∃ i, i ∈ in_df (prepass dv) ∧ InRow.tx_id i = t
               ∧ InRow.sig_id i = 0) →
         tx_outputs t (prepass dv) ≠ [] →
         MINING_REWARD ≤ wrap64 (output_value (tx_outputs t (prepass dv)))
         ∧ (in_int64 (output_value (tx_outputs t (prepass dv))) →
            MINING_REWARD ≤ output_value (tx_outputs t (prepass dv))).
Proof.
  split.
  - rewrite (prepass_closed (prepass dv)), prepass_rejected_prepass.
    apply drop_coinbases_nil.
  - intros t Hsig Hne.
    assert (MINING_REWARD
            ≤ wrap64 (output_value (tx_outputs t (prepass dv)))) as Hle.
    { destruct (decide (wrap64 (output_value (tx_outputs t (prepass dv)))
                        < MINING_REWARD)) as [Hlt|]; [|lia].
      assert (t ∈ prepass_rejected (prepass dv)) as Ht.
      { apply elem_of_prepass_rejected. split; [|done].
        by apply elem_of_coinbase_tx. }
      rewrite prepass_rejected_prepass in Ht. by apply elem_of_nil in Ht. }
    split; [done|]. intros Hfit. by rewrite wrap64_id in Hle.
Qed.

(** A coinbase paying the reward exactly. *)
Lemma prepass_idempotent_witness :
  MINING_REWARD ≤ output_value (tx_outputs 1 (prepass ledger_ok)).
Proof.
  apply (prepass_idempotent ledger_ok).
  - exists (InRow.mk 1 1 0 (-1)). split; [vm_compute; left|done].
  - vm_compute. done.
  - by_compute.
Defined.

(** X4. The reward floor on the written ledger: when the pass completes,
    every written transaction that has an input with sig_id 0 and at
    least one written output row has written outputs whose sum, as 64
    bits hold it, is at least 5_000_000_000; when the sum fits a signed
    64-bit integer the written outputs sum to at least 5_000_000_000.
    (A coinbase without any output row is kept too, as
    [ledger_empty_coinbase] shows.) *)
Theorem written_coinbase_floor txs ins outs dv w t :
  validate_data (init class_body txs ins outs) = Ok (dv, w) →
  (∃ i, i ∈ validated_inputs w ∧ InRow.tx_id i = t ∧ InRow.sig_id i = 0) →
  filter (λ o, OutRow.tx_id o = t) (validated_outputs w) ≠ [] →
  MINING_REWARD
  ≤ wrap64 (output_value
              (filter (λ o, OutRow.tx_id o = t) (validated_outputs w)))
  ∧ (in_int64 (output_value
                 (filter (λ o, OutRow.tx_id o = t) (validated_outputs w))) →
     MINING_REWARD
     ≤ output_value (filter (λ o, OutRow.tx_id o = t) (validated_outputs w))).
Proof.
  intros Hv.
  destruct (validate_data_closed _ _ _ _ _ Hv)
    as (-> & _ & _ & _ & Hin & Hout & _).
  simpl. rewrite Hin, Hout. intros (i & [Hi Hiin]%list_elem_of_filter & Hit & Hs).
  rewrite Hit in Hi. rewrite (filter_tx_kept OutRow.tx_id) by done.
  intros Hne.
  set (d := init class_body txs ins outs) in *.
  change (filter (λ o, OutRow.tx_id o = t) outs) with (tx_outputs t d) in *.
  assert (MINING_REWARD ≤ wrap64 (output_value (tx_outputs t d))) as Hle.
  { destruct (decide (wrap64 (output_value (tx_outputs t d)) < MINING_REWARD))
      as [Hlt|]; [|lia].
    exfalso. apply Hi, elem_of_app. left.
    apply elem_of_prepass_rejected. split; [|done].
    apply elem_of_coinbase_tx. eauto. }
  split; [done|]. intros Hfit. by rewrite wrap64_id in Hle.
Qed.

Lemma written_coinbase_floor_witness :
  ∃ dv w, validate_data ledger_ok = Ok (dv, w)
    ∧ MINING_REWARD
      ≤ output_value (filter (λ o, OutRow.tx_id o = 1) (validated_outputs w)).
Proof.
  destruct (validate_data ledger_ok) as [[dv w]|] eqn:Hv;
    [|by vm_compute in Hv].
  exists dv, w. split; [done|].
  apply (written_coinbase_floor txs_ok ins_ok outs_ok dv w 1 Hv).
  - exists (InRow.mk 1 1 0 (-1)). split; [|done].
    vm_compute in Hv. injection Hv as _ <-. left.
  - vm_compute in Hv. injection Hv as _ <-. done.
  - vm_compute in Hv. injection Hv as _ <-. by_compute.
Defined.

(** ** What [is_valid] leaves alone *)

(** X5. [is_valid] never touches the relations, the UTXO set or the
    [invalid_coinbase] list.  When it returns [True] the object is
    unchanged; when it returns [False] the counter grew by one and the
    transaction was appended to exactly one of the five other lists. *)
Theorem is_valid_frame dv tx_id inputs outputs b dv' :
  is_valid dv tx_id inputs outputs = Ok (b, dv') →
  tx_df dv' = tx_df dv ∧ in_df dv' = in_df dv ∧ out_df dv' = out_df dv
  ∧ utxo dv' = utxo dv ∧ invalid_coinbase dv' = invalid_coinbase dv
  ∧ (b = true → dv' = dv)
  ∧ (b = false →
     n_invalid dv' = n_invalid dv + 1
     ∧ ∃ r, r ≠ InvalidCoinbase ∧ bucket r dv' = bucket r dv ++ [tx_id]
            ∧ ∀ r', r' ≠ r → bucket r' dv' = bucket r' dv).
Proof.
  destruct b.
  - intros [-> _]%is_valid_true_inv. by repeat split.
  - intros (r & _ & -> & Hr)%is_valid_false_inv.
    repeat split; [by destruct r|done|]. exists r. split; [done|].
    rewrite bucket_record_reject, decide_True by done. split; [done|].
    intros r' Hr'. by rewrite bucket_record_reject, decide_False.
Qed.

Lemma is_valid_frame_witness :
  utxo (record_reject NotEnoughValue 2 after_coinbase) = utxo after_coinbase.
Proof.
  assert (H : is_valid after_coinbase 2 spend_10 pay_too_much
              = Ok (false, record_reject NotEnoughValue 2 after_coinbase))
    by (vm_compute; reflexivity).
  exact (proj1 (proj2 (proj2 (proj2
           (is_valid_frame after_coinbase 2 spend_10 pay_too_much false _ H))))).
Defined.

(** ** The written relations *)

(** X6. When the pass completes, the written relations are the input
    relations without the rows of the listed transactions and nothing
    else: each is a sublist of its input (no row is added, changed or
    reordered), and an input row is written iff its transaction is in
    none of the six lists. *)
Theorem written_rows_exact txs ins outs dv w :
  validate_data (init class_body txs ins outs) = Ok (dv, w) →
  let listed t := ∃ r, t ∈ tx_ids (report_bucket r (validation_analytics w)) in
  validated_transactions w `sublist_of` txs
  ∧ validated_inputs w `sublist_of` ins
  ∧ validated_outputs w `sublist_of` outs
  ∧ (∀ x, x ∈ validated_transactions w ↔ x ∈ txs ∧ ¬ listed (TxRow.id x))
  ∧ (∀ i, i ∈ validated_inputs w ↔ i ∈ ins ∧ ¬ listed (InRow.tx_id i))
  ∧ (∀ o, o ∈ validated_outputs w ↔ o ∈ outs ∧ ¬ listed (OutRow.tx_id o)).
Proof.
  intros Hv. cbv zeta.
  destruct (validate_data_closed _ _ _ _ _ Hv)
    as (-> & _ & _ & Htx & Hin & Hout & Hb & _).
  destruct (replay_frames _ _ _ (proj1 (validate_data_inv _ _ _ _ _ Hv)))
    as (_ & _ & _ & _ & _ & _ & Hic).
  set (bad := prepass_rejected (init class_body txs ins outs)) in *.
  set (h := history (ledger_order txs ins outs) (start txs ins outs)) in *.
  assert (Hl : ∀ t, (∃ r, t ∈ bucket r dv) ↔ t ∈ bad ++ rejected_txs h).
  { intros t. rewrite elem_of_app. split.
    - intros [r Hr]. rewrite Hb in Hr. destruct (decide _); [by left|].
      right. by eapply rejected_for_txs.
    - intros [Ht|Ht].
      + exists InvalidCoinbase. by rewrite Hb, decide_True.
      + apply rejected_txs_for in Ht as [r Hr]. exists r. rewrite Hb.
        destruct (decide (r = InvalidCoinbase)) as [->|]; [|done].
        rewrite Hic in Hr. by apply elem_of_nil in Hr. }
  setoid_rewrite report_bucket_write_out. simpl. rewrite Htx, Hin, Hout.
  split; [apply sublist_filter|]. split; [apply sublist_filter|].
  split; [apply sublist_filter|].
  split; [|split]; intros x; rewrite list_elem_of_filter, Hl; tauto.
Qed.

Lemma written_rows_exact_witness :
  ∃ dv w, validate_data ledger_overspend_negative = Ok (dv, w)
    ∧ validated_outputs w
      `sublist_of` [OutRow.mk 10 1 7 5000000000; OutRow.mk 11 2 8 6000000000;
                    OutRow.mk 12 2 9 (-5)].
Proof.
  destruct (validate_data ledger_overspend_negative) as [[dv w]|] eqn:Hv;
    [|by vm_compute in Hv].
  exists dv, w. split; [done|].
  apply (written_rows_exact
           [tx 1; tx 2] [InRow.mk 1 1 0 (-1); InRow.mk 2 2 7 10]
           [OutRow.mk 10 1 7 5000000000; OutRow.mk 11 2 8 6000000000;
            OutRow.mk 12 2 9 (-5)] dv w).
  exact Hv.
Defined.

(** ** Events and the points at which they happen *)

(** Every event of a history was decided at some point of the replay. *)
Lemma history_split dv0 tx_ids dv h1 e h2 :
  replay tx_ids dv0 = Ok dv →
  history tx_ids dv0 = h1 ++ e :: h2 →
  ∃ pre post dvk,
    tx_ids = pre ++ event_tx e :: post ∧ replay pre dv0 = Ok dvk
    ∧ history pre dv0 = h1 ∧ step_event (event_tx e) dvk = Some e
    ∧ NoDup (consumed e) ∧ (∀ x, x ∈ consumed e → x ∈ utxo dvk).
Proof.
  intros Hrep. revert h1 e h2.
  revert tx_ids dv Hrep.
  apply (replay_history_ind (λ tx_ids h _, ∀ h1 e h2,
    h = h1 ++ e :: h2 →
    ∃ pre post dvk,
      tx_ids = pre ++ event_tx e :: post ∧ replay pre dv0 = Ok dvk
      ∧ history pre dv0 = h1 ∧ step_event (event_tx e) dvk = Some e
      ∧ NoDup (consumed e) ∧ (∀ x, x ∈ consumed e → x ∈ utxo dvk))).
  - intros h1 e h2 Heq. by destruct h1.
  - intros pre h t e dv Hpre -> IH He Ht Hnd Hsub _ h1 e' h2 Heq.
    destruct h2 as [|e2 h2 _] using rev_ind.
    + apply app_inj_tail in Heq as [<- <-].
      exists pre, [], dv. by rewrite Ht.
    + rewrite app_comm_cons, app_assoc in Heq.
      apply app_inj_tail in Heq as [Heq <-].
      destruct (IH _ _ _ Heq) as (pre1 & post1 & dvk & -> & ?).
      exists pre1, (post1 ++ [t]), dvk. by rewrite <- app_assoc.
Qed.

(** ** No double spend *)

(** X7. No output is spent twice: when the pass completes on a ledger
    with distinct transaction ids and distinct output ids, the out_ids
    removed from the UTXO set over the whole pass are pairwise distinct,
    within a transaction and across transactions. *)
Theorem no_double_spend_in_pass txs ins outs dv w :
  NoDup (TxRow.id <$> txs) → NoDup (OutRow.id <$> outs) →
  validate_data (init class_body txs ins outs) = Ok (dv, w) →
  NoDup (history (ledger_order txs ins outs) (start txs ins outs) ≫= consumed).
Proof.
  intros Hnd Hids [Hrep _]%validate_data_inv.
  pose proof (ledger_order_NoDup txs ins outs Hnd) as Hord.
  assert (Hout : NoDup (OutRow.id <$> out_df (start txs ins outs))).
  { eapply sublist_NoDup; [exact Hids|].
    apply fmap_sublist, start_out_df_sublist. }
  revert Hord. generalize (ledger_order txs ins outs) dv Hrep.
  apply (replay_history_ind (λ pre h _, NoDup pre → NoDup (h ≫= consumed))).
  - constructor.
  - intros pre h t e d Hpre -> IH He Ht Hnde Hsub _
      [Hndpre _]%NoDup_app.
    rewrite bind_app, bind_cons, app_nil_r.
    apply NoDup_app. split; [by apply IH|]. split; [|done].
    intros x Hx Hxe%Hsub.
    destruct (replay_conservation _ (start_utxo txs ins outs) pre d
                Hout Hpre Hndpre) as [HU _].
    rewrite HU in Hxe. apply elem_of_difference in Hxe as [_ Hnr].
    apply Hnr. unfold removed. by apply elem_of_list_to_set.
Qed.

Lemma no_double_spend_in_pass_witness :
  NoDup (history (ledger_order txs_ok ins_ok outs_ok)
           (start txs_ok ins_ok outs_ok) ≫= consumed).
Proof.
  destruct (validate_data ledger_ok) as [[dv w]|] eqn:Hv;
    [|by vm_compute in Hv].
  apply (no_double_spend_in_pass txs_ok ins_ok outs_ok dv w).
  - by_compute.
  - by_compute.
  - exact Hv.
Defined.

(** ** Spent outputs stay in the ledger *)

(** X8. Written spends resolve: when the pass completes on a ledger with
    distinct transaction ids, every written input of a written transfer
    (a transaction whose first written input does not carry the coinbase
    marker) references the id of a written output row whose transaction
    is written too. *)
Theorem written_spends_resolve txs ins outs dv w i first :
  NoDup (TxRow.id <$> txs) →
  validate_data (init class_body txs ins outs) = Ok (dv, w) →
  i ∈ validated_inputs w →
  InRow.tx_id i ∈ TxRow.id <$> validated_transactions w →
  head (filter (λ j, InRow.tx_id j = InRow.tx_id i) (validated_inputs w))
    = Some first →
  ¬ coinbase_marker first →
  ∃ o, o ∈ validated_outputs w ∧ OutRow.id o = InRow.out_id i
       ∧ OutRow.tx_id o ∈ TxRow.id <$> validated_transactions w.
Proof.
  intros Hnd Hv.
  destruct (validate_data_closed _ _ _ _ _ Hv)
    as (-> & Hev & _ & Htx & Hin & Hout & _).
  destruct (validate_data_inv _ _ _ _ _ Hv) as [Hrep _].
  pose proof (ledger_order_NoDup txs ins outs Hnd) as Hord.
  destruct (replay_frames _ _ _ Hrep) as (_ & Htx' & Hin' & Hout' & _).
  set (bad := prepass_rejected (init class_body txs ins outs)) in *.
  set (h := history (ledger_order txs ins outs) (start txs ins outs)) in *.
  simpl. intros Hi Ht Hfirst Hncb. set (t := InRow.tx_id i) in *.
  (* the transaction was processed and accepted *)
  assert (t ∉ rejected_txs h) as Hnr.
  { rewrite Htx' in Ht.
    apply list_elem_of_fmap in Ht as (x & Hx & [? _]%list_elem_of_filter).
    by rewrite Hx. }
  assert (t ∈ event_tx <$> h) as Hth.
  { rewrite Hev. unfold ledger_order.
    rewrite Htx' in Ht.
    apply list_elem_of_fmap in Ht as (x & Hx & [_ ?]%list_elem_of_filter).
    rewrite Hx. by apply list_elem_of_fmap_2. }
  apply list_elem_of_fmap in Hth as (e & Hte & [h1 [h2 Hh]]%list_elem_of_split).
  destruct (history_split _ _ _ _ _ _ Hrep Hh)
    as (pre & post & dvk & Hsplit & Hk & Hh1 & He & _ & Hsub).
  rewrite <- Hte in *.
  destruct (replay_frames _ _ _ Hk) as (Hevk & _ & Hink & Houtk & _).
  rewrite Hh1 in *.
  assert (Hsubh : ∀ u, u ∈ rejected_txs h1 → u ∈ rejected_txs h).
  { intros u [r Hr]%elem_of_rejected_txs. apply elem_of_rejected_txs.
    exists r. rewrite Hh. apply elem_of_app. by left. }
  (* its inputs at that point are its written inputs *)
  assert (Hsame : tx_inputs t dvk
                  = filter (λ j, InRow.tx_id j = t) (in_df dv)).
  { unfold tx_inputs. rewrite Hink, Hin'.
    rewrite !(filter_tx_kept InRow.tx_id); [done|done|].
    intros Hc. by apply Hnr, Hsubh. }
  destruct e as [t' p|t' s p|t' r]; simpl in Hte; subst t'.
  - apply step_event_coinbase in He as (f & Hf & Hcb).
    rewrite Hsame, Hfirst in Hf. by injection Hf as <-.
  - apply step_event_transfer in He as (_ & -> & _). simpl in Hsub.
    assert (InRow.out_id i ∈ utxo dvk) as Hm.
    { apply Hsub, list_elem_of_fmap_2. rewrite Hsame.
      by apply list_elem_of_filter. }
    rewrite Hsplit in Hord. apply NoDup_app in Hord as (Hndpre & _ & _).
    destruct (replay_backed _ (start_utxo txs ins outs) pre dvk Hndpre Hk _ Hm)
      as (e' & o & He' & Hacc & _ & Ho & Hid & Hto).
    rewrite Hh1 in He'.
    assert (e' ∈ h) as He'h by (rewrite Hh; apply elem_of_app; by left).
    assert (event_tx e' ∉ rejected_txs h) as Hkeep.
    { apply accepted_not_rejected; [|done..].
      rewrite Hev. by apply ledger_order_NoDup. }
    exists o. split; [|split; [done|]].
    + rewrite Hout'. rewrite Houtk in Ho.
      apply list_elem_of_filter in Ho as [_ Ho].
      apply list_elem_of_filter. by rewrite Hto.
    + rewrite Hto, Htx'.
      assert (event_tx e' ∈ ledger_order txs ins outs) as Hin0
        by (rewrite <- Hev; by apply list_elem_of_fmap_2).
      apply list_elem_of_fmap in Hin0 as (row & Hrow & Hin0).
      apply list_elem_of_fmap. exists row. split; [done|].
      apply list_elem_of_filter. by rewrite <- Hrow.
  - exfalso. apply Hnr, elem_of_rejected_txs. exists r. rewrite Hh.
    apply elem_of_app. right. left.
Qed.

Lemma written_spends_resolve_witness :
  ∃ o, o ∈ outs_ok ∧ OutRow.id o = 10.
Proof.
  destruct (validate_data ledger_ok) as [[dv w]|] eqn:Hv;
    [|by vm_compute in Hv].
  destruct (written_spends_resolve txs_ok ins_ok outs_ok dv w
              (InRow.mk 2 2 7 10) (InRow.mk 2 2 7 10)) as (o & Ho & Hid & _).
  - by_compute.
  - exact Hv.
  - vm_compute in Hv. injection Hv as _ <-. right. left.
  - vm_compute in Hv. injection Hv as _ <-. right. left.
  - vm_compute in Hv. injection Hv as _ <-. reflexivity.
  - intros [? _]. done.
  - exists o. split; [|exact Hid].
    vm_compute in Hv. injection Hv as _ <-. exact Ho.
Defined.

(** * Loading the relations (main.py) *)

(** [tx_df.drop_duplicates(subset='id', keep='last', inplace=True)]
    (line 22): a row is dropped when a later row carries the same id; the
    rows kept stay in their order. *)
Fixpoint drop_duplicates_last (rows : list TxRow.t) : list TxRow.t :=
  match rows with
  | [] => []
  | x :: rest =>
      if decide (TxRow.id x ∈ TxRow.id <$> rest)
      then drop_duplicates_last rest
      else x :: drop_duplicates_last rest
  end.

(** [load_data] on the rows that [read_csv] returns for the three
    files. *)
Definition load_data (txs : list TxRow.t) (ins : list InRow.t)
    (outs : list OutRow.t) : list TxRow.t * list InRow.t * list OutRow.t :=
  (drop_duplicates_last txs, ins, outs).

Section loading.
Implicit Types (rows : list TxRow.t) (x : TxRow.t).

Lemma drop_duplicates_last_ids rows t :
  t ∈ TxRow.id <$> drop_duplicates_last rows ↔ t ∈ TxRow.id <$> rows.
Proof.
  induction rows as [|x rows IH]; [done|]. cbn [drop_duplicates_last].
  destruct (decide _) as [Hx|Hx]; rewrite !fmap_cons, ?elem_of_cons, IH.
  - split; [by right|]. by intros [->|?].
  - done.
Qed.

Lemma drop_duplicates_last_NoDup rows :
  NoDup (TxRow.id <$> drop_duplicates_last rows).
Proof.
  induction rows as [|x rows IH]; [constructor|]. cbn [drop_duplicates_last].
  destruct (decide _) as [Hx|Hx]; [done|].
  rewrite fmap_cons. constructor; [|done].
  by rewrite drop_duplicates_last_ids.
Qed.

Lemma drop_duplicates_last_sublist rows :
  drop_duplicates_last rows `sublist_of` rows.
Proof.
  induction rows as [|x rows IH]; [done|]. cbn [drop_duplicates_last].
  destruct (decide _); [by apply sublist_cons|by apply sublist_skip].
Qed.

Lemma drop_duplicates_last_id rows :
  NoDup (TxRow.id <$> rows) → drop_duplicates_last rows = rows.
Proof.
  induction rows as [|x rows IH]; [done|].
  rewrite fmap_cons. intros [Hx Hnd]%NoDup_cons. cbn [drop_duplicates_last].
  rewrite decide_False by done. f_equal. by apply IH.
Qed.

Lemma drop_duplicates_last_kept rows x :
  x ∈ drop_duplicates_last rows ↔
  ∃ l1 l2, rows = l1 ++ x :: l2 ∧ TxRow.id x ∉ TxRow.id <$> l2.
Proof.
  induction rows as [|y rows IH].
  - split; [by intros ?%elem_of_nil|]. intros (l1 & l2 & Heq & _).
    by destruct l1.
  - cbn [drop_duplicates_last]. split.
    + destruct (decide _) as [Hy|Hy].
      * intros (l1 & l2 & -> & Hl)%IH. by exists (y :: l1), l2.
      * intros [->|(l1 & l2 & -> & Hl)%IH]%elem_of_cons.
        -- by exists [], rows.
        -- by exists (y :: l1), l2.
    + intros (l1 & l2 & Heq & Hl). destruct l1 as [|z l1].
      * injection Heq as -> ->. rewrite decide_False by done. left.
      * injection Heq as -> ->.
        assert (x ∈ drop_duplicates_last (l1 ++ x :: l2)) as Hin
          by (apply IH; eauto).
        destruct (decide _); [done|by right].
Qed.
End loading.

(** X9. [drop_duplicates] with [keep='last'] in [load_data]: the loaded
    transactions have pairwise distinct ids and the same ids as the file;
    they are a sublist of the rows of the file; a row is kept iff no
    later row of the file has its id; a file with distinct ids is loaded
    unchanged, so loading is idempotent. *)
Theorem load_data_deduplicates txs ins outs :
  let '(txs', ins', outs') := load_data txs ins outs in
  ins' = ins ∧ outs' = outs
  ∧ NoDup (TxRow.id <$> txs')
  ∧ (∀ t, t ∈ TxRow.id <$> txs' ↔ t ∈ TxRow.id <$> txs)
  ∧ txs' `sublist_of` txs
  ∧ (∀ x, x ∈ txs' ↔
          ∃ l1 l2, txs = l1 ++ x :: l2 ∧ TxRow.id x ∉ TxRow.id <$> l2)
  ∧ (NoDup (TxRow.id <$> txs) → txs' = txs)
  ∧ load_data txs' ins' outs' = (txs', ins', outs').
Proof.
  simpl. split; [done|]. split; [done|].
  split; [apply drop_duplicates_last_NoDup|].
  split; [apply drop_duplicates_last_ids|].
  split; [apply drop_duplicates_last_sublist|].
  split; [apply drop_duplicates_last_kept|].
  split; [apply drop_duplicates_last_id|].
  unfold load_data. f_equal. f_equal.
  apply drop_duplicates_last_id, drop_duplicates_last_NoDup.
Qed.

Lemma load_data_deduplicates_witness :
  drop_duplicates_last [tx 1; tx 2] = [tx 1; tx 2].
Proof.
  apply (load_data_deduplicates [tx 1; tx 2] [] []). by_compute.
Defined.

(** X10. Loading then validating: whatever the transaction file holds,
    when every loaded transaction has an input row, the validator run on
    the loaded relations in a fresh process completes without an
    exception, and the transactions it writes are loaded back
    unchanged. *)
Theorem load_then_validate txs ins outs :
  (∀ t, t ∈ TxRow.id <$> txs → ∃ i, i ∈ ins ∧ InRow.tx_id i = t) →
  ∃ dv w,
    validate_data (init class_body (drop_duplicates_last txs) ins outs)
      = Ok (dv, w)
    ∧ load_data (validated_transactions w) (validated_inputs w)
        (validated_outputs w)
      = (validated_transactions w, validated_inputs w, validated_outputs w).
Proof.
  intros Hins.
  destruct (validate_data_total (drop_duplicates_last txs) ins outs)
    as (dv & w & Hv).
  - apply drop_duplicates_last_NoDup.
  - intros t Ht. apply Hins. by apply drop_duplicates_last_ids.
  - exists dv, w. split; [done|]. unfold load_data. do 2 f_equal.
    apply drop_duplicates_last_id.
    destruct (validate_data_closed _ _ _ _ _ Hv) as (-> & _ & _ & Htx & _).
    simpl. rewrite Htx.
    eapply sublist_NoDup; [apply drop_duplicates_last_NoDup|].
    apply fmap_sublist, sublist_filter.
Qed.

Lemma load_then_validate_witness :
  ∃ dv w,
    validate_data (init class_body (drop_duplicates_last [tx 1; tx 1; tx 2])
                     ins_ok outs_ok) = Ok (dv, w)
    ∧ load_data (validated_transactions w) (validated_inputs w)
        (validated_outputs w)
      = (validated_transactions w, validated_inputs w, validated_outputs w).
Proof.
  apply (load_then_validate [tx 1; tx 1; tx 2] ins_ok outs_ok).
  intros t Ht. apply list_elem_of_fmap in Ht as (x & -> & Hx).
  apply elem_of_cons in Hx as [->|Hx].
  { exists (InRow.mk 1 1 0 (-1)). split; [left|done]. }
  apply elem_of_cons in Hx as [->|Hx].
  { exists (InRow.mk 1 1 0 (-1)). split; [left|done]. }
  apply list_elem_of_singleton in Hx as ->.
  exists (InRow.mk 2 2 7 10). split; [right; left|done].
Defined.

(** * The UTXO summary of the analyzer (data_analyzer.py, get_utxo) *)

(** The amounts are kept in satoshi: the two divisions by
    [BTC_SATOSHI_RATIO] of lines 95 and 101 are floating point and are
    not part of the embedding.  The analyzer's [out_df] comes from
    [read_csv], so its row labels are the positions 0, 1, ...: the label
    that [idxmax] returns is the position that [iloc] reads. *)

Inductive raised := RaisedIndexError | RaisedValueError | RaisedTypeError.

Inductive computed (A : Type) :=
  | Returns (a : A)
  | Raises (e : raised).
Arguments Returns {A} a.
Arguments Raises {A} e.

#[global] Instance computed_ret : MRet computed := λ A a, Returns a.
#[global] Instance computed_bind : MBind computed := λ A B f m,
  match m with
  | Returns a => f a
  | Raises e => Raises e
  end.

(** [s.iloc[0]] and [df.iloc[[idx]]] *)
Definition first_of {A} (s : list A) : computed A :=
  match s with
  | [] => Raises RaisedIndexError
  | x :: _ => Returns x
  end.

Definition iloc {A} (df : list A) (idx : nat) : computed A :=
  match df !! idx with
  | Some x => Returns x
  | None => Raises RaisedIndexError
  end.

(** [s.idxmax()]: the label of the first occurrence of the maximum;
    [ValueError] on an empty series of integers.  On a series of dtype
    object the reduction is not allowed and raises [TypeError]. *)
Definition idxmax (object_dtype : bool) (s : list (nat * Z)) : computed nat :=
  if object_dtype then Raises RaisedTypeError
  else
    match s with
    | [] => Raises RaisedValueError
    | first :: rest =>
        Returns (foldl (λ best lv, if best.2 <? lv.2 then lv else best)
                       first rest).1
    end.

(** [read_csv] gives the columns of a file without data rows the dtype
    object, and the dtype int64 otherwise. *)
Definition object_dtype {A} (df : list A) : bool :=
  match df with [] => true | _ => false end.

(** Lines 83-85: the loop over the lines of the UTXO file.  [.iloc[0]] of
    an int64 column is a NumPy int64, so [utxo_tot] is an int64 from the
    first line on and [+=] wraps around. *)
Fixpoint read_utxo (out_df : list OutRow.t) (lines : list Z)
    (utxo : gset Z) (utxo_tot : Z) : computed (gset Z * Z) :=
  match lines with
  | [] => Returns (utxo, utxo_tot)
  | line :: rest =>
      v ← first_of (OutRow.value <$>
                      filter (λ o, OutRow.id o = line) out_df);
      read_utxo out_df rest ({[line]} ∪ utxo) (wrap64 (utxo_tot + v))
  end.

Record UtxoAnalytics := mkUtxoAnalytics {
  n_utxo : nat;
  tot_utxo_value : Z;
  max_tx_id : Z;
  max_block_id : Z;
  max_output_index : Z;
  max_output_address : Z;
  max_value : Z
}.

Definition get_utxo (tx_df : list TxRow.t) (out_df : list OutRow.t)
    (lines : list Z) : computed UtxoAnalytics :=
  '(utxo, utxo_tot) ← read_utxo out_df lines ∅ 0;
  idx ← idxmax (object_dtype out_df)
          ((λ p, (p.1, OutRow.value p.2)) <$>
             filter (λ p, OutRow.id p.2 ∈ utxo) (imap pair out_df));
  row ← iloc out_df idx;
  block_id ← first_of (TxRow.block_id <$>
                         filter (λ t, TxRow.id t = OutRow.tx_id row) tx_df);
  Returns (mkUtxoAnalytics (size utxo) utxo_tot (OutRow.tx_id row) block_id
             (OutRow.id row) (OutRow.pk_id row) (OutRow.value row)).

(** The value read for a line: the first row with that id. *)
Definition value_of (out_df : list OutRow.t) (line : Z) : option Z :=
  OutRow.value <$> head (filter (λ o, OutRow.id o = line) out_df).

Section get_utxo.
Context (out_df : list OutRow.t).
Implicit Types (lines : list Z) (utxo : gset Z).

Lemma read_utxo_Returns lines utxo tot :
  in_int64 tot →
  Forall (λ l, is_Some (value_of out_df l)) lines →
  read_utxo out_df lines utxo tot
  = Returns (list_to_set lines ∪ utxo,
             wrap64 (tot + sum_list ((λ l, default 0 (value_of out_df l))
                                       <$> lines))).
Proof.
  revert utxo tot. induction lines as [|l lines IH]; intros utxo tot Ht Hall.
  - simpl. f_equal. f_equal; [set_solver|]. unfold sum_list. simpl.
    by rewrite Z.add_0_r, wrap64_id.
  - apply Forall_cons in Hall as [[v Hv] Hall]. cbn [read_utxo].
    unfold value_of in Hv.
    destruct (filter _ out_df) as [|o rest] eqn:Hf; [done|].
    simpl in Hv. injection Hv as <-. cbn [fmap list_fmap first_of mbind
      computed_bind]. rewrite IH by (done || apply wrap64_in_int64).
    f_equal. f_equal; [set_solver|].
    rewrite wrap64_add_l. f_equal.
    unfold value_of at 2. rewrite Hf. unfold sum_list. simpl.
    symmetry. apply Z.add_assoc.
Qed.

Lemma read_utxo_Raises lines utxo tot :
  ¬ Forall (λ l, is_Some (value_of out_df l)) lines →
  read_utxo out_df lines utxo tot = Raises RaisedIndexError.
Proof.
  revert utxo tot. induction lines as [|l lines IH]; intros utxo tot Hall.
  - by destruct Hall.
  - cbn [read_utxo].
    destruct (filter (λ o, OutRow.id o = l) out_df) as [|o rest] eqn:Hf;
      [done|].
    cbn [fmap list_fmap first_of mbind computed_bind]. apply IH.
    intros Hrest. apply Hall. constructor; [|done].
    unfold value_of. rewrite Hf. by eexists.
Qed.

Lemma idxmax_Returns (s : list (nat * Z)) :
  s ≠ [] →
  ∃ i v, idxmax false s = Returns i ∧ (i, v) ∈ s ∧ ∀ p, p ∈ s → p.2 ≤ v.
Proof.
  destruct s as [|first rest]; [done|]. intros _. unfold idxmax.
  assert (∀ best, ∃ b,
            foldl (λ best lv, if best.2 <? lv.2 then lv else best) best rest = b
            ∧ (b = best ∨ b ∈ rest) ∧ best.2 ≤ b.2
            ∧ ∀ p, p ∈ rest → p.2 ≤ b.2) as Hfold.
  { induction rest as [|lv rest IH]; intros best.
    - exists best. repeat split; [by left|lia|]. by intros p ?%elem_of_nil.
    - cbn [foldl]. destruct (best.2 <? lv.2) eqn:Hlt.
      + apply Z.ltb_lt in Hlt. destruct (IH lv) as (b & Hb & Hin & Hle & Hmax).
        exists b. split; [done|]. split; [|split].
        * right. destruct Hin as [->|?]; [left|by right].
        * lia.
        * intros p [->|?]%elem_of_cons; auto.
      + apply Z.ltb_ge in Hlt.
        destruct (IH best) as (b & Hb & Hin & Hle & Hmax).
        exists b. split; [done|]. split; [|split; [done|]].
        * destruct Hin as [->|?]; [by left|right; by right].
        * intros p [->|?]%elem_of_cons; [lia|auto]. }
  destruct (Hfold first) as ([i v] & -> & Hin & Hle & Hmax).
  exists i, v. split; [done|]. split.
  - destruct Hin as [->|?]; [left|by right].
  - intros p [->|?]%elem_of_cons; [done|auto].
Qed.
End get_utxo.

Section get_utxo_spec.
Context (tx_df : list TxRow.t) (out_df : list OutRow.t).
Implicit Types (lines : list Z) (utxo : gset Z).

(** The series that [idxmax] receives. *)
Definition utxo_values (utxo : gset Z) : list (nat * Z) :=
  (λ p, (p.1, OutRow.value p.2)) <$>
    filter (λ p, OutRow.id p.2 ∈ utxo) (imap pair out_df).

Lemma elem_of_utxo_values utxo i v :
  (i, v) ∈ utxo_values utxo ↔
  ∃ o, out_df !! i = Some o ∧ OutRow.id o ∈ utxo ∧ v = OutRow.value o.
Proof.
  unfold utxo_values. rewrite list_elem_of_fmap. split.
  - intros ([j o] & [= -> ->] & [Hin Hp]%list_elem_of_filter). simpl in *.
    apply elem_of_lookup_imap in Hp as (k & o' & [= -> ->] & Hk). eauto.
  - intros (o & Hi & Hin & ->). exists (i, o). split; [done|].
    apply list_elem_of_filter. split; [done|].
    by apply (elem_of_lookup_imap_2 pair).
Qed.

Lemma value_of_Some line v :
  value_of out_df line = Some v →
  ∃ i o, out_df !! i = Some o ∧ OutRow.id o = line ∧ OutRow.value o = v.
Proof.
  unfold value_of. destruct (head _) as [o|] eqn:Hh; [|done].
  intros [= <-]. apply head_Some_elem_of in Hh.
  apply list_elem_of_filter in Hh as [Hid Ho].
  apply list_elem_of_lookup in Ho as [i Hi]. eauto.
Qed.

(** [get_utxo] after a successful read of a non-empty file. *)
Lemma get_utxo_after_read line lines :
  Forall (λ l, is_Some (value_of out_df l)) (line :: lines) →
  ∃ i row,
    idxmax false (utxo_values (list_to_set (line :: lines))) = Returns i
    ∧ out_df !! i = Some row
    ∧ OutRow.id row ∈ line :: lines
    ∧ (∀ o, o ∈ out_df → OutRow.id o ∈ line :: lines →
            OutRow.value o ≤ OutRow.value row)
    ∧ get_utxo tx_df out_df (line :: lines)
      = (block_id ← first_of (TxRow.block_id <$>
                     filter (λ t, TxRow.id t = OutRow.tx_id row) tx_df);
         Returns (mkUtxoAnalytics
                    (size (list_to_set (line :: lines) : gset Z))
                    (wrap64 (sum_list ((λ l, default 0 (value_of out_df l))
                                         <$> line :: lines)))
                    (OutRow.tx_id row) block_id (OutRow.id row)
                    (OutRow.pk_id row) (OutRow.value row))).
Proof.
  intros Hall. set (U := list_to_set (line :: lines) : gset Z).
  assert (utxo_values U ≠ []) as Hne.
  { apply Forall_cons in Hall as [[v Hv] _].
    apply value_of_Some in Hv as (i & o & Hi & Hid & _).
    assert ((i, OutRow.value o) ∈ utxo_values U) as Hin.
    { apply elem_of_utxo_values. exists o. split; [done|]. split; [|done].
      unfold U. rewrite Hid. set_solver. }
    intros Hnil. rewrite Hnil in Hin. by apply elem_of_nil in Hin. }
  destruct (idxmax_Returns _ Hne) as (i & v & Hidx & Hin & Hmax).
  apply elem_of_utxo_values in Hin as (row & Hi & Hrow & ->).
  exists i, row. split; [done|]. split; [done|].
  split; [by apply elem_of_list_to_set in Hrow|]. split.
  - intros o Ho Hid. apply list_elem_of_lookup in Ho as [j Hj].
    apply (Hmax (j, OutRow.value o)). apply elem_of_utxo_values.
    exists o. split; [done|]. split; [|done]. by apply elem_of_list_to_set.
  - unfold get_utxo. rewrite read_utxo_Returns by (done || by_compute).
    cbn [mbind computed_bind].
    replace (list_to_set (line :: lines) ∪ ∅) with U by set_solver.
    fold (utxo_values U).
    assert (object_dtype out_df = false) as ->
      by (destruct out_df; [by rewrite lookup_nil in Hi|done]).
    rewrite Hidx. cbn [mbind computed_bind].
    unfold iloc. rewrite Hi. by rewrite Z.add_0_l.
Qed.
End get_utxo_spec.

(** X11. On an empty UTXO file the maximum of [get_utxo] is taken over an
    empty selection: [get_utxo] raises [ValueError] exactly when the file
    is empty and [out_df] has a row, and [TypeError] exactly when the
    file is empty and [out_df] has no row (its columns then have dtype
    object).  On a non-empty file the only exception it can raise is
    [IndexError]: for a line whose id has no row in [out_df], or for a
    maximal output whose transaction has no row in [tx_df]. *)
Theorem get_utxo_value_error tx_df out_df lines :
  (get_utxo tx_df out_df lines = Raises RaisedValueError
   ↔ lines = [] ∧ out_df ≠ [])
  ∧ (get_utxo tx_df out_df lines = Raises RaisedTypeError
     ↔ lines = [] ∧ out_df = [])
  ∧ (lines ≠ [] → ∀ e, get_utxo tx_df out_df lines = Raises e →
                       e = RaisedIndexError).
Proof.
  assert (Hne : lines ≠ [] → ∀ e, get_utxo tx_df out_df lines = Raises e →
                                  e = RaisedIndexError).
  { destruct lines as [|line lines]; [done|]. intros _ e.
    destruct (decide (Forall (λ l, is_Some (value_of out_df l))
                        (line :: lines))) as [Hall|Hall].
    - destruct (get_utxo_after_read tx_df out_df line lines Hall)
        as (i & row & _ & _ & _ & _ & ->).
      destruct (TxRow.block_id <$> filter _ tx_df); [|done].
      by intros [= <-].
    - unfold get_utxo. rewrite read_utxo_Raises by done. by intros [= <-]. }
  assert (Hnil : get_utxo tx_df out_df []
                 = Raises (if object_dtype out_df then RaisedTypeError
                           else RaisedValueError)).
  { unfold get_utxo. cbn [read_utxo mbind computed_bind].
    replace (filter _ (imap pair out_df)) with (@nil (nat * OutRow.t)).
    - by destruct out_df.
    - symmetry. generalize (imap pair out_df). intros l.
      induction l as [|p l IH]; [done|].
      rewrite filter_cons_False; [done|]. set_solver. }
  split; [|split; [|done]].
  - split.
    + destruct lines as [|line lines]; [|by intros ?%Hne].
      rewrite Hnil. by destruct out_df.
    + intros [-> Hout]. rewrite Hnil. by destruct out_df.
  - split.
    + destruct lines as [|line lines]; [|by intros ?%Hne].
      rewrite Hnil. by destruct out_df.
    + intros [-> ->]. by rewrite Hnil.
Qed.

Lemma get_utxo_value_error_witness :
  get_utxo txs_ok outs_ok [] = Raises RaisedValueError
  ∧ get_utxo [] [] [] = Raises RaisedTypeError.
Proof.
  split.
  - by apply (get_utxo_value_error txs_ok outs_ok []).
  - by apply (get_utxo_value_error [] [] []).
Defined.

(** X12. The summary does not depend on the order of the lines of the
    UTXO file (the order in which the validator's set was iterated):
    permuted files give the same result, exception included. *)
Theorem get_utxo_order_independent tx_df out_df lines lines' :
  lines ≡ₚ lines' →
  get_utxo tx_df out_df lines = get_utxo tx_df out_df lines'.
Proof.
  intros Hp. unfold get_utxo.
  destruct (decide (Forall (λ l, is_Some (value_of out_df l)) lines))
    as [Hall|Hall].
  - rewrite !read_utxo_Returns by (done || by_compute || by rewrite <- Hp).
    cbn [mbind computed_bind].
    rewrite (list_to_set_perm_L lines lines' Hp).
    rewrite (sum_list_Permutation
               ((λ l, default 0 (value_of out_df l)) <$> lines)
               ((λ l, default 0 (value_of out_df l)) <$> lines'))
      by (by rewrite Hp).
    done.
  - rewrite !read_utxo_Raises; [done| |done]. by rewrite <- Hp.
Qed.

Lemma get_utxo_order_independent_witness :
  get_utxo txs_ok outs_ok [11; 12] = get_utxo txs_ok outs_ok [12; 11].
Proof.
  apply (get_utxo_order_independent txs_ok outs_ok [11; 12] [12; 11]).
  apply Permutation_swap.
Defined.

(** ** The analyzer on the files of the validator *)

(** Every id of the written UTXO set has a written row whose transaction
    is written. *)
Lemma final_utxo_rows txs ins outs dv w x :
  NoDup (TxRow.id <$> txs) →
  validate_data (init class_body txs ins outs) = Ok (dv, w) →
  x ∈ utxo dv →
  ∃ o, o ∈ out_df dv ∧ OutRow.id o = x
       ∧ OutRow.tx_id o ∈ TxRow.id <$> tx_df dv.
Proof.
  intros Hnd Hv Hx.
  destruct (validate_data_inv _ _ _ _ _ Hv) as [Hrep _].
  pose proof (ledger_order_NoDup txs ins outs Hnd) as Hord.
  destruct (replay_frames _ _ _ Hrep) as (Hev & Htx & _).
  destruct (replay_backed _ (start_utxo txs ins outs) _ dv Hord Hrep x Hx)
    as (e & o & He & Hacc & _ & Ho & Hid & Hto).
  exists o. split; [done|]. split; [done|]. rewrite Hto, Htx.
  assert (event_tx e ∈ ledger_order txs ins outs) as Hin
    by (rewrite <- Hev; by apply list_elem_of_fmap_2).
  apply list_elem_of_fmap in Hin as (row & Hrow & Hin).
  apply list_elem_of_fmap. exists row. split; [done|].
  apply list_elem_of_filter. split; [|done]. rewrite <- Hrow.
  apply accepted_not_rejected; [by rewrite Hev|done..].
Qed.

Lemma value_of_unique (out_df : list OutRow.t) o :
  NoDup (OutRow.id <$> out_df) → o ∈ out_df →
  value_of out_df (OutRow.id o) = Some (OutRow.value o).
Proof.
  intros Hnd Ho. unfold value_of.
  by rewrite (filter_unique OutRow.id out_df o Hnd Ho).
Qed.

(** X13. The analyzer on the validator's files: after a completed pass on
    a ledger with distinct transaction ids and distinct output ids, if
    the UTXO set is not empty then [get_utxo], reading the written
    relations and the written ids in any order, returns: the number of
    ids is the size of the set, the total is the sum of the values of the
    written rows whose id is unspent as 64 bits hold it (the sum itself
    when it fits a signed 64-bit integer), and the maximum reported is
    an unspent output whose value bounds the value of every unspent
    output. *)
Theorem get_utxo_on_validated txs ins outs dv w lines :
  NoDup (TxRow.id <$> txs) → NoDup (OutRow.id <$> outs) →
  validate_data (init class_body txs ins outs) = Ok (dv, w) →
  lines ≡ₚ elements (utxo_ids w) → lines ≠ [] →
  ∃ a,
    get_utxo (validated_transactions w) (validated_outputs w) lines = Returns a
    ∧ n_utxo a = size (utxo_ids w)
    ∧ max_output_index a ∈ utxo_ids w
    ∧ (∀ o, o ∈ validated_outputs w → OutRow.id o ∈ utxo_ids w →
            OutRow.value o ≤ max_value a)
    ∧ tot_utxo_value a
      = wrap64 (sum_list (OutRow.value <$>
                            filter (λ o, OutRow.id o ∈ utxo_ids w)
                              (validated_outputs w)))
    ∧ (in_int64 (sum_list (OutRow.value <$>
                             filter (λ o, OutRow.id o ∈ utxo_ids w)
                               (validated_outputs w))) →
       tot_utxo_value a
       = sum_list (OutRow.value <$>
                     filter (λ o, OutRow.id o ∈ utxo_ids w)
                       (validated_outputs w))).
Proof.
  intros Hnd Hids Hv Hp Hne.
  destruct (validate_data_closed _ _ _ _ _ Hv) as (-> & _ & _ & _ & _ & Hout & _).
  simpl in *.
  assert (Hndo : NoDup (OutRow.id <$> out_df dv)).
  { rewrite Hout. eapply sublist_NoDup; [exact Hids|].
    apply fmap_sublist, sublist_filter. }
  assert (Hmem : ∀ x, x ∈ lines ↔ x ∈ utxo dv)
    by (intros x; by rewrite Hp, elem_of_elements).
  assert (Hall : Forall (λ l, is_Some (value_of (out_df dv) l)) lines).
  { apply Forall_forall. intros x Hx%Hmem.
    destruct (final_utxo_rows _ _ _ _ _ x Hnd Hv Hx) as (o & Ho & <- & _).
    rewrite value_of_unique by done. by eexists. }
  destruct lines as [|line lines]; [done|].
  destruct (get_utxo_after_read (tx_df dv) (out_df dv) line lines Hall)
    as (i & row & _ & Hi & Hrow & Hmax & ->).
  set (rows := filter (λ o, OutRow.id o ∈ utxo dv) (out_df dv)).
  assert (Hsum : sum_list ((λ l, default 0 (value_of (out_df dv) l))
                             <$> line :: lines)
                 = sum_list (OutRow.value <$> rows)).
  { assert (Hperm : line :: lines ≡ₚ OutRow.id <$> rows).
    { apply NoDup_Permutation.
      - rewrite Hp. apply NoDup_elements.
      - eapply sublist_NoDup; [exact Hndo|].
        apply fmap_sublist, sublist_filter.
      - intros x. rewrite Hmem. split.
        + intros Hx.
          destruct (final_utxo_rows _ _ _ _ _ x Hnd Hv Hx) as (o' & Ho' & <- & _).
          apply list_elem_of_fmap_2. by apply list_elem_of_filter.
        + by intros (o' & -> & [? _]%list_elem_of_filter)%list_elem_of_fmap. }
    rewrite (sum_list_Permutation _
               ((λ l, default 0 (value_of (out_df dv) l))
                  <$> (OutRow.id <$> rows))) by (by rewrite Hperm).
    rewrite <- list_fmap_compose. f_equal.
    apply list_fmap_ext. intros k o' Hk. simpl.
    rewrite value_of_unique; [done|done|].
    apply list_elem_of_lookup_2 in Hk.
    by apply list_elem_of_filter in Hk as [_ ?]. }
  rewrite Hsum. clear Hsum.
  assert (row ∈ out_df dv) as Hrowin
    by (apply list_elem_of_lookup; eauto).
  apply Hmem in Hrow.
  destruct (final_utxo_rows _ _ _ _ _ _ Hnd Hv Hrow) as (o & Ho & Hid & Hto).
  assert (o = row) as -> by (by apply (NoDup_fmap_eq OutRow.id (out_df dv))).
  apply list_elem_of_fmap in Hto as (t & Ht & Htin).
  destruct (filter (λ t, TxRow.id t = OutRow.tx_id row) (tx_df dv))
    as [|t0 ts] eqn:Hf.
  { assert (t ∈ filter (λ t, TxRow.id t = OutRow.tx_id row) (tx_df dv)) as Hin
      by (by apply list_elem_of_filter).
    rewrite Hf in Hin. by apply elem_of_nil in Hin. }
  cbn [fmap list_fmap first_of mbind computed_bind].
  eexists. split; [done|].
  cbn [n_utxo tot_utxo_value max_output_index max_value].
  split; [|split; [done|split; [|split; [done|]]]].
  - f_equal. apply set_eq. intros x.
    rewrite <- Hmem. by rewrite elem_of_list_to_set.
  - intros o' Ho' Hido. apply Hmax; [done|]. by apply Hmem.
  - intros Hfit. by apply wrap64_id.
Qed.

Lemma get_utxo_on_validated_witness :
  ∃ a, get_utxo txs_ok outs_ok [11; 12] = Returns a ∧ n_utxo a = 2%nat.
Proof.
  destruct (validate_data ledger_ok) as [[dv w]|] eqn:Hv;
    [|by vm_compute in Hv].
  destruct (get_utxo_on_validated txs_ok ins_ok outs_ok dv w [11; 12])
    as (a & Ha & Hn & _).
  - by_compute.
  - by_compute.
  - exact Hv.
  - vm_compute in Hv. injection Hv as _ <-. by vm_compute.
  - done.
  - exists a. vm_compute in Hv. injection Hv as _ <-. split; [exact Ha|].
    rewrite Hn. by vm_compute.
Defined.

(** * The value held by the UTXO set *)



Section value.
Implicit Types (dv : DataValidator) (f : Z → Z) (X Y : gset Z).







End value.

Section value_replay.
Context (txs : list TxRow.t) (ins : list InRow.t) (outs : list OutRow.t).
Context (Hnd : NoDup (TxRow.id <$> txs)) (Hids : NoDup (OutRow.id <$> outs)).
Context (pre post : list Z) (t : Z) (dv : DataValidator).
Context (Hord : ledger_order txs ins outs = pre ++ t :: post).
Context (Hrep : replay pre (start txs ins outs) = Ok dv).




End value_replay.



(** * More on dropping and rejecting *)

(** X15. [drop_transaction] removes from the three relations exactly the
    rows of the transaction and keeps the other rows in order; it leaves
    the counter, the lists and the UTXO set as they are (output ids of a
    dropped transaction that are in the set stay there); dropping twice
    is dropping once, and drops commute. *)
Theorem drop_transaction_rows t u dv :
  (∀ x, x ∈ tx_df (drop_transaction t dv) ↔ x ∈ tx_df dv ∧ TxRow.id x ≠ t)
  ∧ (∀ i, i ∈ in_df (drop_transaction t dv) ↔
          i ∈ in_df dv ∧ InRow.tx_id i ≠ t)
  ∧ (∀ o, o ∈ out_df (drop_transaction t dv) ↔
          o ∈ out_df dv ∧ OutRow.tx_id o ≠ t)
  ∧ tx_df (drop_transaction t dv) `sublist_of` tx_df dv
  ∧ in_df (drop_transaction t dv) `sublist_of` in_df dv
  ∧ out_df (drop_transaction t dv) `sublist_of` out_df dv
  ∧ utxo (drop_transaction t dv) = utxo dv
  ∧ n_invalid (drop_transaction t dv) = n_invalid dv
  ∧ (∀ r, bucket r (drop_transaction t dv) = bucket r dv)
  ∧ drop_transaction t (drop_transaction t dv) = drop_transaction t dv
  ∧ drop_transaction t (drop_transaction u dv)
    = drop_transaction u (drop_transaction t dv).
Proof.
  unfold drop_transaction. simpl.
  split; [intros x; rewrite list_elem_of_filter; tauto|].
  split; [intros x; rewrite list_elem_of_filter; tauto|].
  split; [intros x; rewrite list_elem_of_filter; tauto|].
  split; [apply sublist_filter|]. split; [apply sublist_filter|].
  split; [apply sublist_filter|]. split; [done|]. split; [done|].
  split; [by intros []|]. split.
  - f_equal; rewrite list_filter_filter; apply list_filter_iff; tauto.
  - f_equal; rewrite !list_filter_filter; apply list_filter_iff; tauto.
Qed.

(** X16. A rejected transaction cannot be processed again: after the main
    loop rejected [t], any replay that meets the id [t] once more raises
    [IndexError], because the rows of [t] in [in_df] are gone.  (The
    validator itself does not remove duplicate transaction ids.) *)
Theorem rejected_never_reprocessed t r dv dv' tx_ids :
  step_event t dv = Some (Rejected t r) →
  validate_tx t dv = Ok dv' →
  t ∈ tx_ids →
  replay tx_ids dv' = Raise IndexError.
Proof.
  intros He (e & He' & -> & _)%validate_tx_Ok Ht.
  rewrite He in He'. injection He' as <-.
  apply (replay_missing_inputs _ t); [done|].
  apply tx_inputs_empty_iff. intros i. simpl.
  by intros [? _]%list_elem_of_filter.
Qed.

(** The state in which tx 2 of [ledger_overspend_negative] is met. *)
Definition before_overspend : DataValidator :=
  set_utxo {[10]} ledger_overspend_negative.

Lemma rejected_never_reprocessed_witness :
  replay [2]
    (drop_transaction 2 (record_reject NegOutput 2 before_overspend))
  = Raise IndexError.
Proof.
  apply (rejected_never_reprocessed 2 NegOutput before_overspend).
  - vm_compute. reflexivity.
  - vm_compute. reflexivity.
  - left.
Defined.

(** ** The lists of the class *)

Lemma length_rejected_txs (h : list event) :
  rejected_for InvalidCoinbase h = [] →
  length (rejected_txs h)
  = (length (rejected_for NotInUtxo h) + length (rejected_for NegDestPk h)
     + length (rejected_for InvalidPk h) + length (rejected_for NegOutput h)
     + length (rejected_for NotEnoughValue h))%nat.
Proof.
  rewrite rejected_txs_rejections, !rejected_for_rejections, !length_fmap.
  intros Hic%fmap_nil_inv. revert Hic.
  induction (rejections h) as [|[t r] l IH]; [done|].
  rewrite !filter_cons. simpl. destruct r; simpl;
    try done; intros Hl%IH; lia.
Qed.

(** The main loop, arrived at [dvk], meets [t], whose first input lacks
    the coinbase marker, and [is_valid] returns [False] after counting
    [t] and appending it to the list of [r]. *)
Definition rejected_at (r : reason) (t : Z) (dvk : DataValidator) : Prop :=
  ∃ first dv',
    head (tx_inputs t dvk) = Some first ∧ ¬ coinbase_marker first
    ∧ is_valid dvk t (tx_inputs t dvk) (tx_outputs t dvk) = Ok (false, dv')
    ∧ recorded r t dvk dv'.

Section rejected_points.
Implicit Types (dv : DataValidator) (h : list event).

Lemma history_app pre post dv0 dvk :
  replay pre dv0 = Ok dvk →
  history (pre ++ post) dv0 = history pre dv0 ++ history post dvk.
Proof.
  revert dv0. induction pre as [|u pre IH]; intros dv0.
  - by intros [= ->].
  - simpl. destruct (validate_tx u dv0) as [dv1|] eqn:Hu; [|done]. simpl.
    intros Hrep. destruct (validate_tx_Ok _ _ _ Hu) as (eu & -> & _).
    simpl. f_equal. by apply IH.
Qed.

Lemma elem_of_rejected_for r h t :
  t ∈ rejected_for r h ↔ Rejected t r ∈ h.
Proof.
  unfold rejected_for. rewrite list_elem_of_bind. split.
  - intros (e & Ht & He). destruct e as [| |t' r']; simpl in Ht;
      [by apply elem_of_nil in Ht..|].
    destruct (decide (r' = r)) as [->|]; [|by apply elem_of_nil in Ht].
    by apply list_elem_of_singleton in Ht as ->.
  - intros Hr. exists (Rejected t r). split; [|done]. simpl.
    rewrite decide_True by done. left.
Qed.

Lemma step_event_rejected_at t r dvk :
  rejected_at r t dvk → step_event t dvk = Some (Rejected t r).
Proof.
  intros (first & dv' & Hh & Hncb & Hv & Hrec).
  apply is_valid_false_inv in Hv as (r0 & Hfv & -> & _).
  unfold step_event. rewrite Hh, decide_False, Hfv by done.
  destruct (decide (r0 = r)) as [->|Hne]; [done|].
  destruct Hrec as (Hb & _). rewrite bucket_record_reject in Hb.
  rewrite decide_False in Hb by done.
  apply (f_equal length) in Hb. rewrite length_app in Hb. simpl in Hb. lia.
Qed.

Lemma rejected_at_step_event t r dvk dv1 :
  validate_tx t dvk = Ok dv1 →
  step_event t dvk = Some (Rejected t r) → rejected_at r t dvk.
Proof.
  unfold validate_tx, step_event, rejected_at.
  fold (tx_inputs t dvk) (tx_outputs t dvk). cbv zeta. rewrite iloc0_head.
  destruct (head (tx_inputs t dvk)) as [first|]; [|done].
  cbn [mbind result_bind]. unfold coinbase_marker.
  destruct (decide _) as [Hcb|Hcb]; [done|].
  destruct (is_valid dvk t _ _) as [[b dv']|] eqn:Hv; [|done].
  intros _. pose proof (is_valid_Ok _ _ _ _ _ Hv) as Hres.
  destruct (first_violation _) as [r0|]; [|done].
  intros [= ->]. injection Hres as -> ->.
  exists first, (record_reject r t dvk).
  split; [done|]. split; [done|]. split; [done|].
  apply recorded_record_reject.
Qed.

(** The transactions of a completed replay rejected for [r] are those met
    at some point of it at which [is_valid] rejected them for [r]. *)
Lemma rejected_for_points r order dv0 dv t :
  replay order dv0 = Ok dv →
  t ∈ rejected_for r (history order dv0) ↔
  ∃ pre post dvk, order = pre ++ t :: post ∧ replay pre dv0 = Ok dvk
                  ∧ rejected_at r t dvk.
Proof.
  intros Hrep. rewrite elem_of_rejected_for. split.
  - intros (h1 & h2 & Hh)%list_elem_of_split.
    destruct (history_split _ _ _ _ _ _ Hrep Hh)
      as (pre & post & dvk & Hord & Hpre & _ & He & _).
    simpl in Hord, He. exists pre, post, dvk. split; [done|]. split; [done|].
    rewrite Hord, replay_app, Hpre in Hrep. simpl in Hrep.
    destruct (validate_tx t dvk) as [dv1|] eqn:Hv; [|done].
    by eapply rejected_at_step_event.
  - intros (pre & post & dvk & -> & Hpre & Hat).
    apply step_event_rejected_at in Hat.
    rewrite (history_app _ _ _ _ Hpre).
    rewrite replay_app, Hpre in Hrep. simpl in Hrep.
    apply elem_of_app. right. simpl. rewrite Hat.
    destruct (validate_tx t dvk); [left|done].
Qed.
End rejected_points.

(** X17. The lists are only ever appended to, whatever the class holds
    when the instance is created: after a completed pass each list is the
    list of the class followed by the transactions this pass rejected
    for that reason, in the order of their rejection and each once: for
    [invalid_coinbase] the transactions the pre-pass rejected, for each
    other reason the transactions that [is_valid] rejected for it at the
    point of the main loop that met them.  The counter counts this pass
    only: it is the number of the transactions appended, and so the sum
    of the lists' totals exactly when the lists of the class were
    empty. *)
Theorem lists_append_only cls txs ins outs dv w :
  validate_data (init cls txs ins outs) = Ok (dv, w) →
  let d0 := init cls txs ins outs in
  let order := TxRow.id <$> tx_df (prepass d0) in
  let new r := if decide (r = InvalidCoinbase) then prepass_rejected d0
               else rejected_for r (history order (prepass d0)) in
  (∀ r, tx_ids (report_bucket r (validation_analytics w))
        = bucket r d0 ++ new r)
  ∧ (∀ r, NoDup (new r))
  ∧ (∀ t, t ∈ new InvalidCoinbase ↔
          (∃ i, i ∈ ins ∧ InRow.tx_id i = t ∧ InRow.sig_id i = 0)
          ∧ filter (λ o, OutRow.tx_id o = t) outs ≠ []
          ∧ wrap64 (output_value (filter (λ o, OutRow.tx_id o = t) outs))
            < MINING_REWARD)
  ∧ (∀ r t, r ≠ InvalidCoinbase →
       (t ∈ new r ↔
        ∃ pre post dvk, order = pre ++ t :: post
                        ∧ replay pre (prepass d0) = Ok dvk
                        ∧ rejected_at r t dvk))
  ∧ tot_invalid (validation_analytics w)
    = Z.of_nat (length (new NotInUtxo) + length (new NegDestPk)
                + length (new InvalidPk) + length (new NegOutput)
                + length (new NotEnoughValue)
                + length (new InvalidCoinbase)).
Proof.
  unfold validate_data. cbv zeta.
  set (d0 := init cls txs ins outs).
  destruct (replay _ (prepass d0)) as [dv2|] eqn:Hrep; [|done].
  simpl. intros [= <- <-].
  destruct (replay_frames _ _ _ Hrep) as (_ & _ & _ & _ & Hb & Hn & Hic).
  set (h := history (TxRow.id <$> tx_df (prepass d0)) (prepass d0)) in *.
  split; [|split; [|split; [|split]]].
  - intros r. rewrite report_bucket_write_out, Hb.
    rewrite (prepass_closed d0).
    destruct (decide (r = InvalidCoinbase)) as [->|Hr].
    + rewrite Hic, app_nil_r. done.
    + by destruct r.
  - intros r. destruct (decide _); [apply NoDup_prepass_rejected|].
    apply NoDup_rejected_for.
    assert (NoDup (prepass_rejected d0 ++ rejected_txs h)) as Hnd.
    { eapply replay_rejected_NoDup; [apply NoDup_prepass_rejected| |exact Hrep].
      intros i. rewrite prepass_closed. simpl.
      by intros [? _]%list_elem_of_filter. }
    by apply NoDup_app in Hnd as (_ & _ & ?).
  - intros t. rewrite elem_of_prepass_rejected, elem_of_coinbase_tx. done.
  - intros r t Hr. rewrite decide_False by done.
    by apply (rejected_for_points r _ _ dv2).
  - simpl. rewrite Hn, (prepass_closed d0). simpl.
    rewrite (length_rejected_txs h Hic). lia.
Qed.

Lemma lists_append_only_witness :
  tx_ids (report_bucket NegOutput
            (validation_analytics (write_out
               (drop_transaction 2
                  (record_reject NegOutput 2 before_overspend)))))
  = bucket NegOutput ledger_overspend_negative
    ++ rejected_for NegOutput
         (history (TxRow.id <$> tx_df (prepass ledger_overspend_negative))
            (prepass ledger_overspend_negative)).
Proof.
  assert (Hv : validate_data ledger_overspend_negative
               = Ok (drop_transaction 2
                       (record_reject NegOutput 2 before_overspend),
                     write_out (drop_transaction 2
                       (record_reject NegOutput 2 before_overspend))))
    by (vm_compute; reflexivity).
  exact (proj1 (lists_append_only class_body [tx 1; tx 2]
           [InRow.mk 1 1 0 (-1); InRow.mk 2 2 7 10]
           [OutRow.mk 10 1 7 5000000000; OutRow.mk 11 2 8 6000000000;
            OutRow.mk 12 2 9 (-5)] _ _ Hv) NegOutput).
Defined.

(** * Block occupancy (data_analyzer.py, block_occupancy_analytics) *)

(** The charts and the monthly averages (floating point) are not part of
    the embedding; the two tables they are drawn from are. *)

(** [tx_df.groupby('block_id').count()] (line 110): one entry per
    distinct block_id, in ascending order, with the number of its
    transactions. *)
Definition blocks_occupancy (tx_df : list TxRow.t) : list (Z * Z) :=
  (λ b, (b, Z.of_nat (length (filter (λ x, TxRow.block_id x = b) tx_df))))
    <$> merge_sort Z.le (remove_dups (TxRow.block_id <$> tx_df)).

(** Lines 121-125: one more block with occupancy [value]. *)
Definition tally (bo_distribution : gmap Z Z) (value : Z) : gmap Z Z :=
  match bo_distribution !! value with
  | Some n => <[value := n + 1]> bo_distribution
  | None => <[value := 1]> bo_distribution
  end.

(** Lines 119-125. *)
Definition bo_distribution (tx_df : list TxRow.t) : gmap Z Z :=
  foldl (λ d v, tally d v.2) ∅ (blocks_occupancy tx_df).

(** The number of blocks a distribution accounts for, and the number of
    transactions. *)
Definition dist_blocks (d : gmap Z Z) : Z := sum_list ((map_to_list d).*2).
Definition dist_transactions (d : gmap Z Z) : Z :=
  sum_list ((λ kv, kv.1 * kv.2) <$> map_to_list d).

Section occupancy.
Implicit Types (d : gmap Z Z) (tx_df : list TxRow.t).

Lemma sum_list_cons (x : Z) (l : list Z) : sum_list (x :: l) = x + sum_list l.
Proof. done. Qed.

Lemma tally_blocks d v : dist_blocks (tally d v) = dist_blocks d + 1.
Proof.
  unfold tally, dist_blocks. destruct (d !! v) as [n|] eqn:Hv.
  - rewrite <- (insert_delete_eq d).
    rewrite (sum_list_Permutation _ (((v, n + 1) :: map_to_list (delete v d)).*2))
      by (by rewrite map_to_list_insert by apply lookup_delete_eq).
    rewrite (sum_list_Permutation ((map_to_list d).*2)
               (((v, n) :: map_to_list (delete v d)).*2))
      by (by rewrite map_to_list_delete).
    rewrite !fmap_cons, !sum_list_cons. simpl. lia.
  - rewrite (sum_list_Permutation _ (((v, 1) :: map_to_list d).*2))
      by (by rewrite map_to_list_insert).
    rewrite !fmap_cons, !sum_list_cons. simpl. lia.
Qed.

Lemma tally_transactions d v :
  dist_transactions (tally d v) = dist_transactions d + v.
Proof.
  unfold tally, dist_transactions. destruct (d !! v) as [n|] eqn:Hv.
  - rewrite <- (insert_delete_eq d).
    rewrite (sum_list_Permutation _
               ((λ kv, kv.1 * kv.2) <$> (v, n + 1) :: map_to_list (delete v d)))
      by (by rewrite map_to_list_insert by apply lookup_delete_eq).
    rewrite (sum_list_Permutation ((λ kv, kv.1 * kv.2) <$> map_to_list d)
               ((λ kv, kv.1 * kv.2) <$> (v, n) :: map_to_list (delete v d)))
      by (by rewrite map_to_list_delete).
    rewrite !fmap_cons, !sum_list_cons. simpl. lia.
  - rewrite (sum_list_Permutation _
               ((λ kv, kv.1 * kv.2) <$> (v, 1) :: map_to_list d))
      by (by rewrite map_to_list_insert).
    rewrite !fmap_cons, !sum_list_cons. simpl. lia.
Qed.

Lemma foldl_tally (l : list (Z * Z)) d :
  dist_blocks (foldl (λ d v, tally d v.2) d l)
  = dist_blocks d + Z.of_nat (length l)
  ∧ dist_transactions (foldl (λ d v, tally d v.2) d l)
    = dist_transactions d + sum_list (l.*2).
Proof.
  revert d. induction l as [|v l IH]; intros d.
  - unfold sum_list. simpl. lia.
  - cbn [foldl]. destruct (IH (tally d v.2)) as [-> ->].
    rewrite tally_blocks, tally_transactions.
    rewrite fmap_cons, sum_list_cons, length_cons. lia.
Qed.

Lemma filter_all {A} (P : A → Prop) `{∀ x, Decision (P x)} (l : list A) :
  (∀ x, x ∈ l → P x) → filter P l = l.
Proof.
  induction l as [|x l IH]; [done|]. intros Hall.
  rewrite filter_cons_True by (apply Hall; left). f_equal.
  apply IH. intros y Hy. apply Hall. by right.
Qed.

(** Counting the rows of each key of a duplicate-free list of keys. *)
Lemma count_by_keys (ks : list Z) tx_df :
  NoDup ks →
  sum_list ((λ b, Z.of_nat (length (filter (λ x, TxRow.block_id x = b) tx_df)))
              <$> ks)
  = Z.of_nat (length (filter (λ x, TxRow.block_id x ∈ ks) tx_df)).
Proof.
  induction 1 as [|k ks Hk Hnd IH].
  - unfold sum_list. simpl.
    replace (filter (λ x, TxRow.block_id x ∈ []) tx_df) with (@nil TxRow.t);
      [done|].
    symmetry. induction tx_df as [|x l IHl]; [done|].
    rewrite filter_cons_False; [done|]. apply not_elem_of_nil.
  - rewrite fmap_cons. unfold sum_list in *. cbn [foldr]. rewrite IH.
    clear IH. induction tx_df as [|x l IHl]; [done|].
    rewrite !filter_cons.
    destruct (decide (TxRow.block_id x = k)) as [Hx|Hx].
    + rewrite (decide_False (P := TxRow.block_id x ∈ ks)) by (by rewrite Hx).
      rewrite (decide_True (P := TxRow.block_id x ∈ k :: ks))
        by (rewrite Hx; left).
      rewrite !length_cons. lia.
    + destruct (decide (TxRow.block_id x ∈ ks)) as [Hin|Hin].
      * rewrite (decide_True (P := TxRow.block_id x ∈ k :: ks)) by (by right).
        rewrite !length_cons. lia.
      * rewrite (decide_False (P := TxRow.block_id x ∈ k :: ks)); [lia|].
        intros [?|?]%elem_of_cons; done.
Qed.
End occupancy.

(** X18. Block occupancy accounts for every transaction once: the
    occupancies are positive, listed by ascending distinct block id, and
    sum to the number of transactions; the distribution built from them
    accounts for every block once (its frequencies sum to the number of
    blocks) and for every transaction once (occupancy times frequency
    sums to the number of transactions). *)
Theorem block_occupancy_accounts tx_df :
  Sorted Z.le ((blocks_occupancy tx_df).*1)
  ∧ NoDup ((blocks_occupancy tx_df).*1)
  ∧ (∀ b n, (b, n) ∈ blocks_occupancy tx_df →
            0 < n ∧ b ∈ TxRow.block_id <$> tx_df)
  ∧ sum_list ((blocks_occupancy tx_df).*2) = Z.of_nat (length tx_df)
  ∧ dist_blocks (bo_distribution tx_df)
    = Z.of_nat (length (blocks_occupancy tx_df))
  ∧ dist_transactions (bo_distribution tx_df) = Z.of_nat (length tx_df).
Proof.
  assert (Hkeys : (blocks_occupancy tx_df).*1
                  = merge_sort Z.le (remove_dups (TxRow.block_id <$> tx_df))).
  { unfold blocks_occupancy. rewrite <- list_fmap_compose.
    apply list_fmap_id. }
  assert (Hnd : NoDup (merge_sort Z.le (remove_dups (TxRow.block_id <$> tx_df))))
    by (rewrite merge_sort_Permutation; apply NoDup_remove_dups).
  assert (Hsum : sum_list ((blocks_occupancy tx_df).*2)
                 = Z.of_nat (length tx_df)).
  { assert (filter (λ x, TxRow.block_id x
                          ∈ merge_sort Z.le
                              (remove_dups (TxRow.block_id <$> tx_df))) tx_df
            = tx_df) as Hall.
    { apply filter_all. intros x Hx.
      rewrite merge_sort_Permutation, elem_of_remove_dups.
      by apply list_elem_of_fmap_2. }
    rewrite <- Hall at 2. rewrite <- (count_by_keys _ tx_df Hnd).
    unfold blocks_occupancy. rewrite <- list_fmap_compose. f_equal. }
  split; [rewrite Hkeys; apply Sorted_merge_sort, _|].
  split; [by rewrite Hkeys|]. split; [|split; [done|]].
  - intros b n (b' & [= -> ->] & Hb)%list_elem_of_fmap.
    rewrite merge_sort_Permutation, elem_of_remove_dups in Hb.
    split; [|done].
    apply list_elem_of_fmap in Hb as (x & -> & Hx).
    assert (x ∈ filter (λ y, TxRow.block_id y = TxRow.block_id x) tx_df) as Hin
      by (by apply list_elem_of_filter).
    destruct (filter _ tx_df); [by apply elem_of_nil in Hin|]. simpl. lia.
  - unfold bo_distribution.
    destruct (foldl_tally (blocks_occupancy tx_df) ∅) as [-> ->].
    rewrite Hsum. unfold dist_blocks, dist_transactions.
    rewrite map_to_list_empty. unfold sum_list. simpl. lia.
Qed.

Lemma block_occupancy_accounts_witness :
  0 < 2 ∧ 0 ∈ TxRow.block_id <$> [tx 1; tx 2].
Proof.
  apply (block_occupancy_accounts [tx 1; tx 2]). vm_compute. left.
Defined.
